(** * InstaFacts data layer (src/App.tsx): a shallow embedding.

    The two data-layer implementations of [src/App.tsx]
    ([createSupabaseLayer] and [createLocalLayer]), the reply-tree builder
    inside [listPosts] and the composer guard of [NewPost] are modelled here.
    Strings are JS strings restricted to Latin-1 code units (one [ascii] per
    code unit); the hosted backend is an explicit state that the data-layer
    methods read and write. *)

From stdpp Require Import base gmap list strings pretty.
From Stdlib Require Import Ascii String ZArith Sorted Orders Mergesort.
Open Scope string_scope.
Set Warnings "-register-all".

(* ===================================================================== *)
(** ** JS string primitives *)
(* ===================================================================== *)

Module JS.

(** WhiteSpace and LineTerminator code points of ECMAScript restricted to
    Latin-1: TAB, LF, VT, FF, CR, SPACE, NBSP. This is the set matched by
    regex [\s] and removed by [String.prototype.trim]. *)
Definition is_space (c : ascii) : bool :=
  match nat_of_ascii c with
  | 9 | 10 | 11 | 12 | 13 | 32 | 160 => true
  | _ => false
  end.

(** Line terminators: the characters regex [.] does not match. *)
Definition is_line_terminator (c : ascii) : bool :=
  match nat_of_ascii c with
  | 10 | 13 => true
  | _ => false
  end.

Fixpoint trim_start (s : string) : string :=
  match s with
  | EmptyString => EmptyString
  | String c r => if is_space c then trim_start r else s
  end.

Definition trim (s : string) : string :=
  string_of_list_ascii (rev (list_ascii_of_string
    (trim_start (string_of_list_ascii (rev (list_ascii_of_string (trim_start s))))))).

(** [String.prototype.toLowerCase] on Latin-1: A-Z and U+00C0..U+00DE
    (except U+00D7) move down by 0x20; every other code unit is fixed. *)
Definition to_lower_char (c : ascii) : ascii :=
  let n := nat_of_ascii c in
  if ((65 <=? n) && (n <=? 90))%nat
     || ((192 <=? n) && (n <=? 222) && negb (n =? 215))%nat
  then ascii_of_nat (n + 32) else c.

Fixpoint to_lower (s : string) : string :=
  match s with
  | EmptyString => EmptyString
  | String c r => String (to_lower_char c) (to_lower r)
  end.

(** JS truthiness of a string: only [""] is falsy. *)
Definition truthy (s : string) : bool :=
  match s with EmptyString => false | _ => true end.

(** [a || b] on optional strings ([undefined]/[null] is [None]). *)
Definition or_str (a b : option string) : option string :=
  match a with
  | Some s => if truthy s then Some s else b
  | None => b
  end.

End JS.

(* ===================================================================== *)
(** ** JS [Set<string>] built from an array *)
(* ===================================================================== *)

Module JSSet.

(** [new Set(arr)]: first occurrences, in insertion order. *)
Definition of_list (l : list string) : list string :=
  fold_left (fun acc x => if bool_decide (x ∈ acc) then acc else (acc ++ [x])%list) l [].

Definition has (s : list string) (x : string) : bool := bool_decide (x ∈ s).

Definition delete (x : string) (s : list string) : list string :=
  filter (fun y => y ≠ x) s.

Definition add (x : string) (s : list string) : list string :=
  if has s x then s else (s ++ [x])%list.

End JSSet.

(* ===================================================================== *)
(** ** Hosted backend rows and sessions *)
(* ===================================================================== *)

Record User := mkUser { user_id : string; user_email : option string }.

(** A row of the [posts] table, as read by [toggleReactPost]. *)
Record PostRow := mkPostRow {
  pr_id : string;
  pr_user_id : string;
  pr_caption : string;
  pr_created_at : Z;
  pr_likes_up : option (list string);
  pr_likes_down : option (list string);
  pr_edited : bool
}.

Inductive ReactType := Up | Down.

(** Failures surfaced by the remote layer: the backend's own error object,
    or an [Error] thrown by the layer with the given message. *)
Inductive LayerError :=
  | BackendError (msg : string)
  | ThrownError (msg : string).

Inductive result (A : Type) :=
  | Ok (a : A)
  | Err (e : LayerError).
Arguments Ok {A} a.
Arguments Err {A} e.

(* ===================================================================== *)
(** ** [createSupabaseLayer.toggleReactPost] (App.tsx 176-185) *)
(* ===================================================================== *)

Module Toggle.

Record DB := mkDB { db_posts : gmap string PostRow; db_session : option User }.

(** Line 182: the read-modify-write on the two sets. *)
Definition toggle_sets (type : ReactType) (userId : string)
    (likes_up likes_down : list string) : list string * list string :=
  let up := JSSet.of_list likes_up in
  let down := JSSet.of_list likes_down in
  match type with
  | Up =>
      if JSSet.has up userId then (JSSet.delete userId up, down)
      else (JSSet.add userId up, JSSet.delete userId down)
  | Down =>
      if JSSet.has down userId then (up, JSSet.delete userId down)
      else (JSSet.delete userId up, JSSet.add userId down)
  end.

(** [select('likes_up, likes_down').eq('id', postId).single()] fails when
    there is no such row; a missing user returns without writing; the
    [update(...).eq('id', postId)] writes both arrays back. *)
Definition toggleReactPost (postId : string) (type : ReactType) (db : DB)
    : result DB :=
  match db_posts db !! postId with
  | None => Err (BackendError "JSON object requested, multiple (or no) rows returned")
  | Some row =>
      match db_session db with
      | None => Ok db
      | Some u =>
          let '(up, down) := toggle_sets type (user_id u)
                               (default [] (pr_likes_up row))
                               (default [] (pr_likes_down row)) in
          Ok (mkDB (<[postId := {| pr_id := pr_id row; pr_user_id := pr_user_id row;
                                   pr_caption := pr_caption row;
                                   pr_created_at := pr_created_at row;
                                   pr_likes_up := Some up; pr_likes_down := Some down;
                                   pr_edited := pr_edited row |}]> (db_posts db))
                   (db_session db))
      end
  end.

Definition bind {A B} (r : result A) (k : A -> result B) : result B :=
  match r with Ok a => k a | Err e => Err e end.

Definition up_set (db : DB) (postId : string) : list string :=
  match db_posts db !! postId with
  | Some row => default [] (pr_likes_up row)
  | None => []
  end.

Definition down_set (db : DB) (postId : string) : list string :=
  match db_posts db !! postId with
  | Some row => default [] (pr_likes_down row)
  | None => []
  end.

End Toggle.

(* ===================================================================== *)
(** ** Reply-prefix regexes of [listPosts] (App.tsx 102, 106) *)
(* ===================================================================== *)

Module ReplyPrefix.

Fixpoint strip_prefix (p s : string) : option string :=
  match p, s with
  | EmptyString, _ => Some s
  | String a p', String b s' => if Ascii.eqb a b then strip_prefix p' s' else None
  | String _ _, EmptyString => None
  end.

(** [[^\]]*\]]: the characters before the first [']'] and what follows it. *)
Fixpoint split_at_bracket (s : string) : option (string * string) :=
  match s with
  | EmptyString => None
  | String c r =>
      if Ascii.eqb c "]"%char then Some (EmptyString, r)
      else match split_at_bracket r with
           | Some (g, rest) => Some (String c g, rest)
           | None => None
           end
  end.

(** [s.match(/^\[reply:([^\]]+)\]\s*/)]: [Some (m[1], text after m[0])]. *)
Definition match_reply (s : string) : option (string * string) :=
  match strip_prefix "[reply:" s with
  | None => None
  | Some r =>
      match split_at_bracket r with
      | Some (g, rest) => if JS.truthy g then Some (g, JS.trim_start rest) else None
      | None => None
      end
  end.

(** [s.replace(/^\[reply:[^\]]+\]\s*/, '')]: the same regex without the
    group; the first (anchored) match is removed. *)
Definition strip_reply (s : string) : string :=
  match match_reply s with Some (_, rest) => rest | None => s end.

End ReplyPrefix.

(* ===================================================================== *)
(** ** [createSupabaseLayer.listPosts] (App.tsx 92-123) *)
(* ===================================================================== *)

(** A row of the [comments] table ([content] is [None] when it is not a
    string, [parent_id] is [None] when the column is absent or null). *)
Record CommentRow := mkCommentRow {
  cr_id : string;
  cr_post_id : string;
  cr_user_id : string;
  cr_content : option string;
  cr_created_at : Z;
  cr_parent_id : option string;
  cr_likes_up : option (list string);
  cr_likes_down : option (list string);
  cr_edited : bool
}.

(** The comment object built at lines 107-110, without its [replies]
    array: that array lives in the heap of [Tree] below, because nodes are
    shared by reference between [byId], [byPost] and other nodes' replies. *)
Record Node := mkNode {
  n_id : string;
  n_userId : string;
  n_content : option string;
  n_createdAt : Z;
  n_likesUp : list string;
  n_likesDown : list string;
  n_edited : bool;
  n_postId : string;
  n_parentId : option string
}.

Module ListPosts.

(** Lines 102-110. *)
Definition decode_row (row : CommentRow) : Node :=
  let m := match cr_content row with
           | Some s => ReplyPrefix.match_reply s
           | None => None
           end in
  let parentId := JS.or_str (cr_parent_id row)
                    (match m with Some (g, _) => Some g | None => None end) in
  let content := match m, cr_content row with
                 | Some _, Some s => Some (ReplyPrefix.strip_reply s)
                 | _, c => c
                 end in
  {| n_id := cr_id row; n_userId := cr_user_id row; n_content := content;
     n_createdAt := cr_created_at row;
     n_likesUp := default [] (cr_likes_up row);
     n_likesDown := default [] (cr_likes_down row);
     n_edited := cr_edited row; n_postId := cr_post_id row;
     n_parentId := parentId |}.

(** [Map.prototype.set] on an insertion-ordered map: an existing key keeps
    its position and gets the new value; a new key goes last. *)
Definition map_set (k : string) (v : Node) (m : list (string * Node))
    : list (string * Node) :=
  if bool_decide (k ∈ map fst m)
  then map (fun kv => if bool_decide (kv.1 = k) then (k, v) else kv) m
  else (m ++ [(k, v)])%list.

(** Line 101-112: [byId]. *)
Definition build_byId (rows : list CommentRow) : list (string * Node) :=
  fold_left (fun m row => let c := decode_row row in map_set (n_id c) c m) rows [].

(** The mutable part of the object graph after line 121: the [replies]
    array of each node (by the node's key in [byId]) and the [byPost] map;
    both hold node references, i.e. keys of [byId]. *)
Record Tree := mkTree {
  t_replies : gmap string (list string);
  t_byPost : gmap string (list string)
}.

(** [arr.push(x)] on the array stored under [k] (an absent array is []). *)
Definition push (k x : string) (m : gmap string (list string)) : gmap string (list string) :=
  <[k := (default [] (m !! k) ++ [x])%list]> m.

(** One iteration of [byId.forEach] (lines 113-121). *)
Definition attach (byId : list (string * Node)) (t : Tree) (c : Node) : Tree :=
  let to_parent :=
    match n_parentId c with
    | Some p => JS.truthy p && bool_decide (p ∈ map fst byId)
    | None => false
    end in
  match n_parentId c with
  | Some p =>
      if to_parent then mkTree (push p (n_id c) (t_replies t)) (t_byPost t)
      else mkTree (t_replies t) (push (n_postId c) (n_id c) (t_byPost t))
  | None => mkTree (t_replies t) (push (n_postId c) (n_id c) (t_byPost t))
  end.

Definition build_tree (byId : list (string * Node)) : Tree :=
  fold_left (fun t kv => attach byId t kv.2) byId (mkTree ∅ ∅).

(** The key a node is attached under by line 114, if any:
    [c.parentId && byId.has(c.parentId)]. *)
Definition parent_target (byId : list (string * Node)) (c : Node) : option string :=
  match n_parentId c with
  | Some p => if JS.truthy p && bool_decide (p ∈ map fst byId) then Some p else None
  | None => None
  end.

(** The array of replies of the node under [k], and the top-level array
    of post [pid] ([undefined] read as []). *)
Definition replies_of (t : Tree) (k : string) : list string :=
  default [] (t_replies t !! k).

Definition top_of (t : Tree) (pid : string) : list string :=
  default [] (t_byPost t !! pid).

(** The post objects returned at line 122; [op_comments] holds references
    to the nodes of [byId]. *)
Record OutPost := mkOutPost {
  op_id : string;
  op_userId : string;
  op_caption : string;
  op_createdAt : Z;
  op_comments : list string;
  op_likesUp : list string;
  op_likesDown : list string;
  op_edited : bool
}.

Definition out_post (t : Tree) (p : PostRow) : OutPost :=
  {| op_id := pr_id p; op_userId := pr_user_id p; op_caption := pr_caption p;
     op_createdAt := pr_created_at p;
     op_comments := default [] (t_byPost t !! pr_id p);
     op_likesUp := default [] (pr_likes_up p);
     op_likesDown := default [] (pr_likes_down p);
     op_edited := pr_edited p |}.

(** The comment objects reachable from the returned posts, unfolded into a
    finite tree ([fuel] bounds the depth; the object graph itself may be
    deeper, or cyclic). *)
Inductive CTree := CNode (n : Node) (replies : list CTree).

Fixpoint materialize (fuel : nat) (byId : list (string * Node)) (t : Tree)
    (k : string) : option CTree :=
  match fuel with
  | O => None
  | S f =>
      match list_to_map (M := gmap string Node) byId !! k with
      | None => None
      | Some n => Some (CNode n (omap (materialize f byId t)
                                      (default [] (t_replies t !! k))))
      end
  end.

Fixpoint depth (c : CTree) : nat :=
  match c with
  | CNode _ rs => S (fold_right (fun r acc => Nat.max (depth r) acc) 0 rs)
  end.

End ListPosts.

(* ===================================================================== *)
(** ** The hosted backend as seen by the remote layer *)
(* ===================================================================== *)

(** The two ordered queries of [listPosts]: [posts] by [created_at]
    descending and [comments] by [created_at] ascending. The backend may
    return any order that respects the key; a merge sort is one of them. *)
Module PostNewestFirst <: Orders.TotalLeBool'.
Definition t := PostRow.
Definition leb (x y : PostRow) : bool := Z.leb (pr_created_at y) (pr_created_at x).
Infix "<=?" := leb (at level 70, no associativity).
Lemma newest_first_total : forall x y, leb x y = true \/ leb y x = true.
Proof. intros x y. unfold leb. rewrite !Z.leb_le. lia. Qed.
Definition leb_total := newest_first_total.
End PostNewestFirst.
Module PostSort := Sort PostNewestFirst.

Module CommentOldestFirst <: Orders.TotalLeBool'.
Definition t := CommentRow.
Definition leb (x y : CommentRow) : bool := Z.leb (cr_created_at x) (cr_created_at y).
Infix "<=?" := leb (at level 70, no associativity).
Lemma oldest_first_total : forall x y, leb x y = true \/ leb y x = true.
Proof. intros x y. unfold leb. rewrite !Z.leb_le. lia. Qed.
Definition leb_total := oldest_first_total.
End CommentOldestFirst.
Module CommentSort := Sort CommentOldestFirst.

Module Remote.

(** Backend tables and the auth session. [be_parent_column] says whether
    the [comments] table has a [parent_id] column (an insert naming a
    missing column is rejected by the backend). *)
Record Backend := mkBackend {
  be_posts : list PostRow;
  be_comments : list CommentRow;
  be_parent_column : bool;
  be_session : option User
}.

Record ListResult := mkListResult {
  lr_posts : list ListPosts.OutPost;
  lr_byId : list (string * Node);
  lr_tree : ListPosts.Tree
}.

(** [listPosts] (lines 92-123). *)
Definition listPosts (db : Backend) : ListResult :=
  let posts := firstn 50 (PostSort.sort (be_posts db)) in
  match posts with
  | [] => mkListResult [] [] (ListPosts.mkTree ∅ ∅)
  | _ :: _ =>
      let postIds := map pr_id posts in
      let comments := CommentSort.sort
                        (filter (fun r => cr_post_id r ∈ postIds) (be_comments db)) in
      let byId := ListPosts.build_byId comments in
      let t := ListPosts.build_tree byId in
      mkListResult (map (ListPosts.out_post t) posts) byId t
  end.

(** The content stored by [addReply] (lines 161 and 164). *)
Definition reply_text (commentId content : string) : string :=
  "[reply:" ++ commentId ++ "] " ++ content.

(** [addReply] (lines 158-167). The backend assigns the new row's id
    ([fresh_id]) and [created_at] ([now]). *)
Definition addReply (fresh_id : string) (now : Z)
    (postId commentId content : string) (db : Backend) : result Backend :=
  match be_session db with
  | None => Err (ThrownError "Login required")
  | Some u =>
      let parent := if be_parent_column db then Some commentId else None in
      let row := {| cr_id := fresh_id; cr_post_id := postId; cr_user_id := user_id u;
                    cr_content := Some (reply_text commentId content);
                    cr_created_at := now; cr_parent_id := parent;
                    cr_likes_up := None; cr_likes_down := None; cr_edited := false |} in
      Ok (mkBackend (be_posts db) (be_comments db ++ [row])%list
                    (be_parent_column db) (be_session db))
  end.

End Remote.

(* ===================================================================== *)
(** ** Accounts, profiles and the remote layer's profile cache *)
(* ===================================================================== *)

(** The [profiles] row read by [_getProfile] ([select('id, username, bio,
    email')]); also the shape of the local layer's profiles. *)
Record Profile := mkProfile {
  pf_id : string;
  pf_username : string;
  pf_bio : option string;
  pf_email : option string
}.

Module Auth.

Record Account := mkAccount { acc_id : string; acc_email : string; acc_password : string }.

(** The auth service and the [profiles] table. The table has a uniqueness
    constraint on [username] (section 4.1 of the spec: "enforced at the
    storage layer via a uniqueness constraint"). [ad_unconfirmed] holds the
    ids of the accounts whose email is not confirmed yet. *)
Record AuthDB := mkAuthDB {
  ad_accounts : list Account;
  ad_profiles : gmap string Profile;
  ad_session : option User;
  ad_unconfirmed : list string
}.

Definition set_profiles (db : AuthDB) (m : gmap string Profile) : AuthDB :=
  mkAuthDB (ad_accounts db) m (ad_session db) (ad_unconfirmed db).

Definition set_session (db : AuthDB) (s : option User) : AuthDB :=
  mkAuthDB (ad_accounts db) (ad_profiles db) s (ad_unconfirmed db).

Definition username_taken_by_other (db : AuthDB) (id username : string) : bool :=
  existsb (fun p => String.eqb (pf_username p) username && negb (String.eqb (pf_id p) id))
          (map snd (map_to_list (ad_profiles db))).

(** [from('profiles').upsert(row, { onConflict: 'id' })]: insert or replace
    the row with [row]'s id, unless another row already has its username. *)
Definition upsert_profile (row : Profile) (db : AuthDB) : AuthDB * option LayerError :=
  if username_taken_by_other db (pf_id row) (pf_username row)
  then (db, Some (BackendError "duplicate key value violates unique constraint"))
  else (set_profiles db (<[pf_id row := row]> (ad_profiles db)), None).

(** [auth.signUp({ email, password })]: a fresh account ([fresh_id] is the
    id the service assigns); an already registered email is an error.
    [autoconfirm] says whether the service confirms the email at once and
    signs the new user in; otherwise the account waits for the user to
    confirm the email, with no session. *)
Definition auth_signUp (fresh_id : string) (autoconfirm : bool)
    (email password : string) (db : AuthDB) : AuthDB * result User :=
  if bool_decide (email ∈ map acc_email (ad_accounts db))
  then (db, Err (BackendError "User already registered"))
  else
    let u := mkUser fresh_id (Some email) in
    (mkAuthDB (ad_accounts db ++ [mkAccount fresh_id email password])%list
              (ad_profiles db)
              (if autoconfirm then Some u else ad_session db)
              (if autoconfirm then ad_unconfirmed db else (ad_unconfirmed db ++ [fresh_id])%list),
     Ok u).

(** [auth.signInWithPassword({ email, password })]: the credentials are
    checked first; an account whose email is not confirmed gets the
    service's "Email not confirmed" error. *)
Definition auth_signInWithPassword (email password : string) (db : AuthDB)
    : AuthDB * option LayerError :=
  match find (fun a => String.eqb (acc_email a) email && String.eqb (acc_password a) password)
             (ad_accounts db) with
  | Some a =>
      if bool_decide (acc_id a ∈ ad_unconfirmed db)
      then (db, Some (BackendError "Email not confirmed"))
      else (set_session db (Some (mkUser (acc_id a) (Some (acc_email a)))), None)
  | None => (db, Some (BackendError "Invalid login credentials"))
  end.

(** [createSupabaseLayer.signUp] (line 91). *)
Definition signUp (fresh_id : string) (autoconfirm : bool) (email password : string)
    (username bio : option string) (db : AuthDB) : AuthDB * option LayerError :=
  let '(db1, r) := auth_signUp fresh_id autoconfirm email password db in
  match r with
  | Err e => (db1, Some e)
  | Ok u =>
      match username with
      | Some name =>
          if JS.truthy name then
            upsert_profile (mkProfile (user_id u) name
                              (Some (default "" (JS.or_str bio (Some ""))))
                              (Some email)) db1
          else (db1, None)
      | None => (db1, None)
      end
  end.

(** The email regex of [signIn] (line 81), [/.+@.+\..+/.test(s)]: some
    ['@'] at [i] and ['.'] at [j] with a non-line-terminator before [i],
    between them (at least one) and after [j]. *)
Definition char_at (s : string) (k : nat) : option ascii := String.get k s.

Definition dot_char (s : string) (k : nat) : bool :=
  match char_at s k with Some c => negb (JS.is_line_terminator c) | None => false end.

Definition is_char (a : ascii) (s : string) (k : nat) : bool :=
  match char_at s k with Some c => Ascii.eqb c a | None => false end.

Definition email_shaped (s : string) : bool :=
  let n := String.length s in
  existsb (fun i =>
    existsb (fun j =>
      (1 <=? i)%nat && dot_char s (i - 1) && is_char "@" s i &&
      (i + 2 <=? j)%nat && forallb (dot_char s) (seq (i + 1) (j - (i + 1))) &&
      is_char "." s j && dot_char s (j + 1))
    (seq 0 n)) (seq 0 n).

(** [from('profiles').select('email').eq('username', identifier)
    .maybeSingle()] followed by the test [error || !data?.email]. *)
Definition lookup_email (db : AuthDB) (username : string) : option string :=
  match filter (fun p => pf_username p = username) (map snd (map_to_list (ad_profiles db))) with
  | [p] => match pf_email p with
           | Some e => if JS.truthy e then Some e else None
           | None => None
           end
  | _ => None
  end.

(** [createSupabaseLayer.signIn] (lines 80-90). *)
Definition signIn (identifier password : string) (db : AuthDB) : AuthDB * option LayerError :=
  if email_shaped identifier then auth_signInWithPassword identifier password db
  else match lookup_email db identifier with
       | None => (db, Some (ThrownError "Username not found"))
       | Some email => auth_signInWithPassword email password db
       end.

(** The remote layer's own state: the profile cache of line 69 and the
    log of [profiles] queries issued by [_getProfile]. *)
Record Layer := mkLayer { rl_cache : gmap string Profile; rl_queries : list string }.

(** [_getProfile] (lines 70-75). *)
Definition getProfile (id : string) (l : Layer) (db : AuthDB) : option Profile * Layer :=
  match rl_cache l !! id with
  | Some p => (Some p, l)
  | None =>
      let data := ad_profiles db !! id in
      (data, mkLayer (match data with
                      | Some p => <[id := p]> (rl_cache l)
                      | None => rl_cache l
                      end) (rl_queries l ++ [id])%list)
  end.

(** [updateProfile] (lines 125-132). *)
Definition updateProfile (username : string) (bio : option string) (l : Layer) (db : AuthDB)
    : Layer * AuthDB * option LayerError :=
  match ad_session db with
  | None => (l, db, Some (ThrownError "Login required"))
  | Some u =>
      let '(db1, e) := upsert_profile (mkProfile (user_id u) username
                                         (Some (default "" (JS.or_str bio (Some ""))))
                                         (user_email u)) db in
      match e with
      | Some err => (l, db1, Some err)
      | None => (mkLayer (delete (user_id u) (rl_cache l)) (rl_queries l), db1, None)
      end
  end.

(** [isAdmin] of [createSupabaseLayer] (line 67). *)
Definition supabase_isAdmin (user : option User) (adminEmail : option string) : bool :=
  match user with
  | Some u =>
      match user_email u, adminEmail with
      | Some e, Some a => JS.truthy e && JS.truthy a && String.eqb (JS.to_lower e) (JS.to_lower a)
      | _, _ => false
      end
  | None => false
  end.

End Auth.

(** The configuration read by [useDataLayer] (lines 45-57). *)
Record Env := mkEnv {
  env_url : option string;
  env_anon : option string;
  env_admin_email : option string
}.

Definition env_truthy (o : option string) : bool :=
  match o with Some s => JS.truthy s | None => false end.

(** [isAdmin] of the layer [useDataLayer] builds: [createSupabaseLayer]
    when both [url] and [anon] are set, [createLocalLayer] (line 209:
    [isAdmin: true]) otherwise. [user] is the signed-in user seen at
    creation. *)
Definition layer_isAdmin (env : Env) (user : option User) : bool :=
  if env_truthy (env_url env) && env_truthy (env_anon env)
  then Auth.supabase_isAdmin user (env_admin_email env)
  else true.

(* ===================================================================== *)
(** ** [createLocalLayer] (App.tsx 200-252) *)
(* ===================================================================== *)

Inductive MediaType := Image | Video.

(** A browser [File]; [file_object_url] is what [URL.createObjectURL]
    returns for it. *)
Record File := mkFile { file_name : string; file_type : string; file_object_url : string }.

Definition starts_with (p s : string) : bool :=
  match ReplyPrefix.strip_prefix p s with Some _ => true | None => false end.

Module Local.

(** The [Comment] type of line 4 as the local layer builds it. *)
Inductive LComment :=
  mkLComment (lc_id lc_userId lc_content : string) (lc_createdAt : Z)
             (lc_replies : list LComment) (lc_likesUp lc_likesDown : list string).

Record LPost := mkLPost {
  lp_id : string;
  lp_userId : string;
  lp_caption : string;
  lp_createdAt : Z;
  lp_media_urls : list string;
  lp_mediaTypes : list MediaType;
  lp_comments : list LComment;
  lp_likesUp : list string;
  lp_likesDown : list string;
  lp_edited : bool
}.

(** The closure state of lines 201-205. *)
Record LocalState := mkLocalState {
  ls_currentUser : option User;
  ls_posts : list LPost;
  ls_profiles : gmap string Profile
}.

Definition init : LocalState := mkLocalState None [] ∅.

(** The local layer's methods. Those reading [Date.now()] or [uid(...)]
    carry the value read ([now], [fresh]). *)
Inductive LocalOp :=
  | LSignIn (identifier : string)
  | LSignUp (email : string) (username bio : option string)
  | LSignOut
  | LCreatePost (files : list File) (caption : string) (fresh : string) (now : Z)
  | LAddComment (postId content : string) (fresh : string) (now : Z)
  | LUpdatePost (postId caption : string)
  | LAddReply (postId commentId content : string) (fresh : string) (now : Z)
  | LDeletePost (postId : string)
  | LToggleReactPost (postId : string) (type : ReactType)
  | LDeleteAllPostsByUser (userId : string)
  | LUpdateProfile (username : string) (bio : option string)
  | LSeed (now : Z) (fresh1 fresh2 : string).

Definition current_id (st : LocalState) : string :=
  default "user_local" (JS.or_str (option_map user_id (ls_currentUser st)) (Some "user_local")).

Definition set_posts (st : LocalState) (ps : list LPost) : LocalState :=
  mkLocalState (ls_currentUser st) ps (ls_profiles st).

Definition map_post (postId : string) (f : LPost -> LPost) (ps : list LPost) : list LPost :=
  map (fun p => if String.eqb (lp_id p) postId then f p else p) ps.

Definition with_comments (p : LPost) (cs : list LComment) : LPost :=
  mkLPost (lp_id p) (lp_userId p) (lp_caption p) (lp_createdAt p) (lp_media_urls p)
          (lp_mediaTypes p) cs (lp_likesUp p) (lp_likesDown p) (lp_edited p).

Definition add_reply_to (commentId : string) (r : LComment) (c : LComment) : LComment :=
  let '(mkLComment i u t ts rs up down) := c in
  if String.eqb i commentId then mkLComment i u t ts (rs ++ [r])%list up down else c.

Definition media_type (f : File) : MediaType :=
  if starts_with "video" (file_type f) then Video else Image.

(** One method call: the new state, and the error it throws, if any. *)
Definition step (op : LocalOp) (st : LocalState) : LocalState * option LayerError :=
  match op with
  | LSignIn identifier =>
      let id := if JS.truthy identifier then identifier else "user_local" in
      let email := if JS.truthy identifier then
                     match String.index 0 "@" identifier with
                     | Some k => if (0 <? k)%nat then Some identifier else None
                     | None => None
                     end
                   else None in
      let profiles := match ls_profiles st !! id with
                      | Some _ => ls_profiles st
                      | None => <[id := mkProfile id id (Some "") email]> (ls_profiles st)
                      end in
      (mkLocalState (Some (mkUser id email)) (ls_posts st) profiles, None)
  | LSignUp email username bio =>
      let id := default "user_local" (JS.or_str username (JS.or_str (Some email) (Some "user_local"))) in
      (mkLocalState (Some (mkUser id (Some email))) (ls_posts st)
         (<[id := mkProfile id (default id (JS.or_str username (Some id)))
                   (Some (default "" (JS.or_str bio (Some "")))) (Some email)]> (ls_profiles st)),
       None)
  | LSignOut => (mkLocalState None (ls_posts st) (ls_profiles st), None)
  | LCreatePost files caption fresh now =>
      let p := mkLPost fresh (current_id st) caption now (map file_object_url files)
                       (map media_type files) [] [] [] false in
      (set_posts st (p :: ls_posts st), None)
  | LAddComment postId content fresh now =>
      let c := mkLComment fresh (current_id st) content now [] [] [] in
      (set_posts st (map_post postId (fun p => with_comments p (lp_comments p ++ [c])%list)
                       (ls_posts st)), None)
  | LUpdatePost postId caption =>
      (set_posts st (map_post postId (fun p =>
         mkLPost (lp_id p) (lp_userId p) caption (lp_createdAt p) (lp_media_urls p)
                 (lp_mediaTypes p) (lp_comments p) (lp_likesUp p) (lp_likesDown p) true)
         (ls_posts st)), None)
  | LAddReply postId commentId content fresh now =>
      let r := mkLComment fresh (current_id st) content now [] [] [] in
      (set_posts st (map_post postId (fun p =>
         with_comments p (map (add_reply_to commentId r) (lp_comments p))) (ls_posts st)),
       None)
  | LDeletePost postId =>
      (set_posts st (filter (fun p => lp_id p <> postId) (ls_posts st)), None)
  | LToggleReactPost _ _ => (st, None)
  | LDeleteAllPostsByUser userId =>
      (set_posts st (filter (fun p => lp_userId p <> userId) (ls_posts st)), None)
  | LUpdateProfile _ _ =>
      (* lines 223-230 call [getUser], which is not in scope here: a
         [ReferenceError] is thrown before anything changes. *)
      (st, Some (ThrownError "getUser is not defined"))
  | LSeed now fresh1 fresh2 =>
      let profiles := <["bob" := mkProfile "bob" "bob" (Some "") None]>
                        (<["alice" := mkProfile "alice" "alice" (Some "") None]> (ls_profiles st)) in
      (mkLocalState (ls_currentUser st)
         [mkLPost fresh1 "alice" "Hello Supabase ??" (now - 60000) [] [] [] [] [] false;
          mkLPost fresh2 "bob" "Second post" (now - 3600000) [] [] [] [] [] false]
         profiles, None)
  end.

Fixpoint run (ops : list LocalOp) (st : LocalState) : LocalState :=
  match ops with
  | [] => st
  | op :: ops' => run ops' (step op st).1
  end.

(** [listPosts] (line 221). *)
Definition listPosts (st : LocalState) : list LPost := ls_posts st.

(** The [Date.now()] an operation reads for a post timestamp, if any. *)
Definition op_time (op : LocalOp) : option Z :=
  match op with
  | LCreatePost _ _ _ now | LAddComment _ _ _ now | LAddReply _ _ _ _ now
  | LSeed now _ _ => Some now
  | _ => None
  end.

(** The clock never goes back: every time read is at least [t] and at
    least the previous one. *)
Fixpoint clock_from (t : Z) (ops : list LocalOp) : Prop :=
  match ops with
  | [] => True
  | op :: ops' =>
      match op_time op with
      | Some now => (t <= now)%Z /\ clock_from now ops'
      | None => clock_from t ops'
      end
  end.

(** Posts listed newest first. *)
Definition newest_first (a b : LPost) : Prop := (lp_createdAt b <= lp_createdAt a)%Z.

(** Posts newest first, none created after [t]. *)
Definition ordered_until (t : Z) (st : LocalState) : Prop :=
  StronglySorted newest_first (ls_posts st) /\
  Forall (fun p => (lp_createdAt p <= t)%Z) (ls_posts st).

End Local.

(* ===================================================================== *)
(** ** Publishing a post: [NewPost.submit] and [createPost] *)
(* ===================================================================== *)

Module Composer.

(** Backend calls issued by [createSupabaseLayer.createPost]. *)
Inductive Effect :=
  | EGetUser
  | EUpload (idx : nat) (file : File)
  | EInsertPost (caption : string) (types : list MediaType).

(** [createSupabaseLayer.createPost] (lines 133-151): [getUser()], then
    one upload per file in order, then the insert of the post row. *)
Definition createPost_effects (signed_in : bool) (files : list File) (caption : string)
    : list Effect :=
  EGetUser ::
  (if signed_in
   then (map (fun '(i, f) => EUpload i f) (zip (seq 0 (List.length files)) files)
         ++ [EInsertPost caption (map Local.media_type files)])%list
   else []).

(** [NewPost.submit] (line 495): the arguments handed to [onCreate], if
    any. *)
Definition submit (files : list File) (caption : string) : option (list File * string) :=
  if negb (Nat.eqb (List.length files) 0) || JS.truthy (JS.trim caption)
  then Some (files, JS.trim caption)
  else None.

(** [onCreate] is [App.onCreatePost] (line 318), which calls
    [data.createPost] (line 295): the backend calls caused by pressing
    Share. In local mode [createPost] calls no backend at all. *)
Definition share_effects (remote signed_in : bool) (files : list File) (caption : string)
    : list Effect :=
  match submit files caption with
  | None => []
  | Some (fs, c) => if remote then createPost_effects signed_in fs c else []
  end.

End Composer.

(* ===================================================================== *)
(** ** [createSupabaseLayer.addComment] (App.tsx 152-157) *)
(* ===================================================================== *)

Module RemoteWrites.

(** [getUser()], then [insert({ post_id, user_id, content })]: the new row
    has no [parent_id]; the backend assigns [id] ([fresh_id]) and
    [created_at] ([now]). *)
Definition addComment (fresh_id : string) (now : Z) (postId content : string)
    (db : Remote.Backend) : result Remote.Backend :=
  match Remote.be_session db with
  | None => Err (ThrownError "Login required")
  | Some u =>
      let row := {| cr_id := fresh_id; cr_post_id := postId; cr_user_id := user_id u;
                    cr_content := Some content; cr_created_at := now; cr_parent_id := None;
                    cr_likes_up := None; cr_likes_down := None; cr_edited := false |} in
      Ok (Remote.mkBackend (Remote.be_posts db) (Remote.be_comments db ++ [row])%list
                           (Remote.be_parent_column db) (Remote.be_session db))
  end.

End RemoteWrites.

(* ===================================================================== *)
(** ** Sign-in and sign-up screens: [LoginCard] and [niceAuthError] *)
(* ===================================================================== *)

(** [String.prototype.includes]. *)
Fixpoint includes (needle hay : string) : bool :=
  starts_with needle hay ||
  match hay with
  | EmptyString => false
  | String _ r => includes needle r
  end.

Module AuthUI.

(** [e.message] of a thrown value. *)
Definition message (e : LayerError) : string :=
  match e with BackendError m | ThrownError m => m end.

(** [niceAuthError] (line 266). For an error with an empty message the
    test string is [String(e)] = "Error", which contains none of the
    keywords, as the empty string does. *)
Definition niceAuthError (e : LayerError) : string :=
  let m := JS.to_lower (message e) in
  if includes "invalid login" m || includes "invalid email" m || includes "invalid credentials" m
  then "Invalid email/username or password."
  else if includes "registered" m || includes "already exists" m
  then "Email already in use. Please sign in."
  else if includes "confirm" m
  then "Check your email to confirm your account, then sign in."
  else if JS.truthy (message e) then message e else "Authentication failed.".

(** [doSignIn] (line 267) with the remote layer: the auth state after the
    call and the toast shown, if any. *)
Definition doSignIn (identifier password : string) (db : Auth.AuthDB)
    : Auth.AuthDB * option string :=
  let '(db', e) := Auth.signIn identifier password db in (db', option_map niceAuthError e).

(** [doSignUp] (line 268): [LoginCard] always passes [username] and [bio]
    as strings. *)
Definition doSignUp (fresh_id : string) (autoconfirm : bool)
    (email password username bio : string) (db : Auth.AuthDB)
    : Auth.AuthDB * option string :=
  let '(db', e) := Auth.signUp fresh_id autoconfirm email password (Some username) (Some bio) db in
  (db', option_map niceAuthError e).

Inductive LoginMode := SignInMode | SignUpMode.

(** What [LoginCard.submit] (lines 409-420) does: show an error, or call
    [onSignIn] / [onSignUp] with these arguments. *)
Inductive LoginAction :=
  | ShowError (msg : string)
  | CallSignIn (identifier password : string)
  | CallSignUp (email password username bio : string).

(** [isEmail] of line 408 is the regex of [signIn] (line 81). *)
Definition login_submit (mode : LoginMode) (identifier email password username bio : string)
    : LoginAction :=
  match mode with
  | SignInMode =>
      if negb (JS.truthy identifier) then ShowError "Enter email or username"
      else if negb (JS.truthy password) then ShowError "Password required"
      else CallSignIn identifier password
  | SignUpMode =>
      if negb (Auth.email_shaped email) then ShowError "Please enter a valid email address"
      else if negb (JS.truthy password) then ShowError "Password is required"
      else if negb (JS.truthy username) then ShowError "Choose a username"
      else CallSignUp email password username bio
  end.

End AuthUI.

(* ===================================================================== *)
(** ** Routing: [parseHash] (line 353) *)
(* ===================================================================== *)

Module Route.

(** [hash.replace(/^#\/?/, '')]. *)
Definition strip_hash (h : string) : string :=
  match h with
  | String c r =>
      if Ascii.eqb c "#" then
        match r with
        | String d r' => if Ascii.eqb d "/" then r' else r
        | EmptyString => r
        end
      else h
  | EmptyString => h
  end.

Definition routes : list string := ["home"; "login"; "new"; "profile"].

Definition parseHash (hash : string) : string :=
  let raw := strip_hash hash in
  if negb (JS.truthy raw) then "home"
  else if existsb (String.eqb raw) routes then raw
  else "home".

End Route.

(* ===================================================================== *)
(** ** The composer's file list: [NewPost] and [ImageCropperModal] *)
(* ===================================================================== *)

Module Files.

Definition is_media (f : File) : bool :=
  starts_with "image" (file_type f) || starts_with "video" (file_type f).

(** [addFiles] (lines 480-485); its argument [list] is [picked], [None]
    for a [null] file list. *)
Definition addFiles (picked : option (list File)) (prev : list File) : list File :=
  match picked with
  | None => prev
  | Some l =>
      match filter (fun f => is_media f = true) l with
      | [] => prev
      | arr => firstn 9 (prev ++ arr)
      end
  end.

(** [removeAt] (line 490): [prev.filter((_, i) => i !== idx)]. *)
Definition removeAt (idx : nat) (prev : list File) : list File :=
  map snd (filter (fun p : nat * File => p.1 ≠ idx) (zip (seq 0 (List.length prev)) prev)).

(** [saveCrop] (line 493): [prev.map((f, i) => i === cropIndex ? cropped : f)]. *)
Definition saveCrop (cropIndex : option nat) (cropped : File) (prev : list File) : list File :=
  match cropIndex with
  | None => prev
  | Some k => imap (fun i f => if bool_decide (i = k) then cropped else f) prev
  end.

(** [name.replace(/\.[^.]+$/, '')]: drop a final extension. *)
Definition drop_extension (name : string) : string :=
  let r := rev (list_ascii_of_string name) in
  match list_find (fun c => c = "."%char) r with
  | Some (i, _) =>
      if bool_decide (0 < i)%nat
      then string_of_list_ascii (rev (drop (S i) r))
      else name
  | None => name
  end.

(** The file built by [doSave] (lines 635-637); [url] is its object URL. *)
Definition cropped_file (source : File) (url : string) : File :=
  let stem := drop_extension (file_name source) in
  mkFile ((if JS.truthy stem then stem else "image") ++ "-cropped.jpg") "image/jpeg" url.

(** The file-list updates of [NewPost]: picking or dropping files, removing
    one, and saving a crop of file [k] (the cropper opens only on an image,
    line 548). *)
Inductive ComposerOp :=
  | CAdd (picked : option (list File))
  | CRemove (idx : nat)
  | CCrop (k : nat) (url : string).

Definition composer_step (op : ComposerOp) (files : list File) : list File :=
  match op with
  | CAdd l => addFiles l files
  | CRemove i => removeAt i files
  | CCrop k url =>
      match files !! k with
      | Some f => if starts_with "image" (file_type f)
                  then saveCrop (Some k) (cropped_file f url) files
                  else files
      | None => files
      end
  end.

Definition composer_run (ops : list ComposerOp) : list File :=
  fold_left (fun fs op => composer_step op fs) ops [].

Definition is_upload (e : Composer.Effect) : bool :=
  match e with Composer.EUpload _ _ => true | _ => false end.

(** The number of storage uploads among the backend calls. *)
Definition uploads (effs : list Composer.Effect) : nat :=
  List.length (filter (fun e => is_upload e = true) effs).

End Files.

(* ===================================================================== *)
(** ** The feed: [CommentBlock], [AdminPanel], [timeAgo] *)
(* ===================================================================== *)

Module Feed.

(** [CommentBlock.submitReply] (line 749): the text handed to
    [onAddReply], if any. *)
Definition submitReply (has_handler isAuthed : bool) (reply : string) : option string :=
  if negb has_handler || negb isAuthed then None
  else if negb (JS.truthy (JS.trim reply)) then None
  else Some (JS.trim reply).

(** [ProfileEditor.submit] (line 965): an error, or the argument of
    [onSave]; [bio || ''] is [bio] for a string. *)
Definition profile_submit (username bio : string) : string + (string * string) :=
  if negb (JS.truthy (JS.trim username)) then inl "Username is required"
  else inr (JS.trim username, bio).

(** [AdminPanel] (line 683): [Array.from(new Set(posts.map(p => p.userId)))]. *)
Definition admin_users (posts : list Local.LPost) : list string :=
  JSSet.of_list (map Local.lp_userId posts).

(** [timeAgo] (line 9). [AgoDate ts] is [new Date(ts).toLocaleDateString()],
    whose text depends on the locale. *)
Inductive Ago := AgoText (s : string) | AgoDate (ts : Z).

Definition timeAgo (now ts : Z) : Ago :=
  let s := ((now - ts) / 1000)%Z in
  if (s <? 60)%Z then AgoText (pretty s ++ "s") else
  let m := (s / 60)%Z in
  if (m <? 60)%Z then AgoText (pretty m ++ "m") else
  let h := (m / 60)%Z in
  if (h <? 24)%Z then AgoText (pretty h ++ "h") else
  let d := (h / 24)%Z in
  if (d <? 7)%Z then AgoText (pretty d ++ "d") else AgoDate ts.

End Feed.

(** The [id] field of a local comment. *)
Definition lc_id (c : Local.LComment) : string :=
  match c with Local.mkLComment i _ _ _ _ _ _ => i end.

(** [JS.trim_start] on the list of code units, used to reason about
    [JS.trim]. *)
Fixpoint trim_start_units (l : list ascii) : list ascii :=
  match l with
  | [] => []
  | c :: r => if JS.is_space c then trim_start_units r else l
  end.

(* ===================================================================== *)
(** ** Concrete inputs *)
(* ===================================================================== *)

Module Examples.

Definition alice : User := mkUser "u1" (Some "Alice@Example.com").

Definition post_row : PostRow :=
  mkPostRow "p1" "u2" "hello" 0 (Some ["u3"]) (Some ["u1"]) false.

Definition toggle_db : Toggle.DB := Toggle.mkDB {[ "p1" := post_row ]} (Some alice).

(** A comment, a reply stored with [parent_id], and a reply to that reply
    stored with the legacy content prefix only. *)
Definition c1 : CommentRow := mkCommentRow "c1" "p1" "u1" (Some "first") 1 None None None false.
Definition c2 : CommentRow := mkCommentRow "c2" "p1" "u2" (Some "second") 2 (Some "c1") None None false.
Definition c3 : CommentRow :=
  mkCommentRow "c3" "p1" "u3" (Some "[reply:c2] third") 3 None None None false.
Definition thread : list CommentRow := [c1; c2; c3].

Definition reply_backend : Remote.Backend := Remote.mkBackend [post_row] [c1] true (Some alice).

Definition after_reply (content : string) : Remote.Backend :=
  match Remote.addReply "r1" 5 "p1" "c1" content reply_backend with
  | Ok d => d
  | Err _ => reply_backend
  end.

Definition bob_profile : Profile := mkProfile "u9" "bob" (Some "") (Some "bob@example.com").

Definition auth_db : Auth.AuthDB :=
  Auth.mkAuthDB [Auth.mkAccount "u9" "bob@example.com" "secret"] {[ "u9" := bob_profile ]} None [].

Definition layer0 : Auth.Layer := Auth.mkLayer ∅ [].
Definition layer1 : Auth.Layer := (Auth.getProfile "u9" layer0 auth_db).2.

Definition local_bob : Local.LocalState :=
  Local.run [Local.LSignUp "bob@example.com" (Some "bob") (Some "hi")] Local.init.

Definition two_posts : list Local.LocalOp :=
  [Local.LCreatePost [] "first" "p1" 1; Local.LCreatePost [] "second" "p2" 2].

(** 51 posts created one millisecond apart. *)
Definition many_posts : list Local.LocalOp :=
  map (fun i => Local.LCreatePost [] "post" "p" (Z.of_nat i)) (seq 0 51).

Definition remote_env : Env := mkEnv (Some "https://db.example.com") (Some "anon-key")
                                     (Some "admin@example.com").

Definition toggled : Toggle.DB :=
  match Toggle.toggleReactPost "p1" Up toggle_db with Ok d => d | Err _ => toggle_db end.

Definition after_comment (content : string) : Remote.Backend :=
  match RemoteWrites.addComment "k1" 7 "p1" content reply_backend with
  | Ok d => d
  | Err _ => reply_backend
  end.

Definition image_file : File := mkFile "cat.png" "image/png" "blob:1".
Definition text_file : File := mkFile "notes.txt" "text/plain" "blob:2".

Definition bob_signed_in : Auth.AuthDB :=
  Auth.set_session auth_db (Some (mkUser "u9" (Some "bob@example.com"))).

(** Two profiles, with carol signed in. *)
Definition carol_profile : Profile := mkProfile "u7" "carol" (Some "") (Some "carol@example.com").
Definition carol_db : Auth.AuthDB :=
  Auth.mkAuthDB [Auth.mkAccount "u9" "bob@example.com" "secret";
                 Auth.mkAccount "u7" "carol@example.com" "pw7"]
                (<["u7" := carol_profile]> {[ "u9" := bob_profile ]})
                (Some (mkUser "u7" (Some "carol@example.com"))) [].

(** A local post with a comment "c1" and a reply "r1" to it. *)
Definition threaded_local : Local.LocalState :=
  Local.run [Local.LCreatePost [] "hi" "p1" 1; Local.LAddComment "p1" "top" "c1" 2;
             Local.LAddReply "p1" "c1" "nested" "r1" 3] Local.init.

End Examples.

(* ===================================================================== *)
(** * Theorems *)
(* ===================================================================== *)

(** ** JS set lemmas *)

Lemma JSSet_of_list_elem (l : list string) (x : string) :
  x ∈ JSSet.of_list l <-> x ∈ l.
Proof.
  unfold JSSet.of_list.
  cut (forall acc, x ∈ fold_left (fun acc x =>
         if bool_decide (x ∈ acc) then acc else (acc ++ [x])%list) l acc
       <-> x ∈ acc \/ x ∈ l).
  { intros H. rewrite H. set_solver. }
  induction l as [|y l IH]; intros acc; simpl.
  - set_solver.
  - rewrite IH. case_bool_decide; rewrite ?elem_of_app, ?list_elem_of_singleton;
      set_solver.
Qed.

Lemma JSSet_has_true (s : list string) (x : string) :
  JSSet.has s x = true <-> x ∈ s.
Proof. unfold JSSet.has. apply bool_decide_eq_true. Qed.

Lemma JSSet_delete_elem (s : list string) (x y : string) :
  x ∈ JSSet.delete y s <-> x ∈ s /\ x <> y.
Proof. unfold JSSet.delete. rewrite list_elem_of_filter. tauto. Qed.

Lemma JSSet_add_elem (s : list string) (x y : string) :
  x ∈ JSSet.add y s <-> x ∈ s \/ x = y.
Proof.
  unfold JSSet.add, JSSet.has. case_bool_decide.
  - split; [tauto|]. intros [? | ->]; done.
  - rewrite elem_of_app, list_elem_of_singleton. tauto.
Qed.

Lemma JSSet_has_false (s : list string) (x : string) :
  JSSet.has s x = false <-> x ∉ s.
Proof. unfold JSSet.has. apply bool_decide_eq_false. Qed.

(** After one toggle by [userId], [userId] is never in both sets. *)
Lemma toggle_sets_exclusive (type : ReactType) (userId : string) (a b : list string) :
  ~ (userId ∈ fst (Toggle.toggle_sets type userId a b) /\
     userId ∈ snd (Toggle.toggle_sets type userId a b)).
Proof.
  unfold Toggle.toggle_sets, JSSet.has.
  destruct type; case_bool_decide as E; simpl;
    rewrite ?JSSet_delete_elem, ?JSSet_add_elem, ?JSSet_of_list_elem;
    rewrite ?JSSet_of_list_elem in E; intuition congruence.
Qed.

(** The up-set after an up-toggle, as a set. *)
Lemma toggle_sets_up_elem (userId : string) (a b : list string) (x : string) :
  x ∈ fst (Toggle.toggle_sets Up userId a b) <->
  (if bool_decide (userId ∈ a) then x ∈ a /\ x <> userId else x ∈ a \/ x = userId).
Proof.
  unfold Toggle.toggle_sets, JSSet.has.
  case_bool_decide as H1; case_bool_decide as H2;
    rewrite JSSet_of_list_elem in H1; try tauto; simpl;
    rewrite ?JSSet_delete_elem, ?JSSet_add_elem, ?JSSet_of_list_elem;
    intuition congruence.
Qed.

(** ** C1: toggling a post reaction *)

(** C1. Two successive up-toggles of post [postId] by the signed-in user [u]
    leave the post's up-set as it was (as a set), and after any single
    toggle [u]'s id is not in both the up-set and the down-set. *)
Theorem toggleReactPost_up_twice_and_exclusive (db : Toggle.DB) (postId : string)
    (u : User) (row : PostRow)
    (Hsession : Toggle.db_session db = Some u)
    (Hrow : Toggle.db_posts db !! postId = Some row) :
  (exists db1 db2,
      Toggle.toggleReactPost postId Up db = Ok db1 /\
      Toggle.toggleReactPost postId Up db1 = Ok db2 /\
      (forall x, x ∈ Toggle.up_set db2 postId <-> x ∈ Toggle.up_set db postId)) /\
  (forall type db', Toggle.toggleReactPost postId type db = Ok db' ->
      ~ (user_id u ∈ Toggle.up_set db' postId /\ user_id u ∈ Toggle.down_set db' postId)).
Proof.
  split.
  - unfold Toggle.toggleReactPost at 1. rewrite Hrow, Hsession.
    set (a := default [] (pr_likes_up row)).
    set (b := default [] (pr_likes_down row)).
    pose proof (toggle_sets_up_elem (user_id u) a b) as HA.
    destruct (Toggle.toggle_sets Up (user_id u) a b) as [up1 down1] eqn:T1.
    simpl in HA.
    pose proof (toggle_sets_up_elem (user_id u) up1 down1) as HB.
    destruct (Toggle.toggle_sets Up (user_id u) up1 down1) as [up2 down2] eqn:T2.
    simpl in HB.
    eexists; eexists; split; [reflexivity|].
    unfold Toggle.toggleReactPost. cbn [Toggle.db_posts Toggle.db_session].
    rewrite lookup_insert_eq. cbn [pr_likes_up pr_likes_down pr_id default id].
    rewrite T2.
    split; [reflexivity|].
    intros x. unfold Toggle.up_set. cbn [Toggle.db_posts].
    rewrite lookup_insert_eq, Hrow. cbn [pr_likes_up default id].
    fold a. rewrite HB.
    destruct (decide (user_id u ∈ a)) as [Hin|Hout].
    + rewrite bool_decide_true in HA by exact Hin.
      rewrite bool_decide_false by (rewrite HA; tauto).
      rewrite HA. destruct (decide (x = user_id u)); subst; tauto.
    + rewrite bool_decide_false in HA by exact Hout.
      rewrite bool_decide_true by (rewrite HA; tauto).
      rewrite HA. destruct (decide (x = user_id u)); subst; tauto.
  - intros type db' Hdb'.
    unfold Toggle.toggleReactPost in Hdb'. rewrite Hrow, Hsession in Hdb'.
    pose proof (toggle_sets_exclusive type (user_id u)
                  (default [] (pr_likes_up row)) (default [] (pr_likes_down row))) as HX.
    destruct (Toggle.toggle_sets type (user_id u) _ _) as [up down] eqn:T.
    injection Hdb' as <-.
    unfold Toggle.up_set, Toggle.down_set. simpl. rewrite lookup_insert_eq. simpl.
    exact HX.
Qed.

(** ** The reply-tree builder *)

Section TreeBuilder.
Import ListPosts.

Lemma attach_alt (byId : list (string * Node)) (t : Tree) (c : Node) :
  attach byId t c =
  match parent_target byId c with
  | Some p => mkTree (push p (n_id c) (t_replies t)) (t_byPost t)
  | None => mkTree (t_replies t) (push (n_postId c) (n_id c) (t_byPost t))
  end.
Proof.
  unfold attach, parent_target.
  destruct (n_parentId c); [|reflexivity].
  destruct (JS.truthy _ && _); reflexivity.
Qed.

Lemma push_lookup (k x k' : string) (m : gmap string (list string)) :
  default [] (push k x m !! k') =
  if decide (k = k') then (default [] (m !! k') ++ [x])%list else default [] (m !! k').
Proof. unfold push. rewrite lookup_insert. case_decide; subst; done. Qed.

Lemma fold_attach_replies (byId l : list (string * Node)) (t : Tree) (p : string) :
  replies_of (fold_left (fun t kv => attach byId t kv.2) l t) p =
  (replies_of t p ++
   map (fun kv => n_id kv.2) (filter (fun kv => parent_target byId kv.2 = Some p) l))%list.
Proof.
  revert t. induction l as [|kv l IH]; intros t; simpl.
  - by rewrite app_nil_r.
  - rewrite IH, filter_cons. unfold replies_of. rewrite attach_alt.
    destruct (parent_target byId kv.2) as [q|] eqn:E; cbn [t_replies t_byPost].
    + rewrite push_lookup.
      case_decide as Hq; case_decide as Hq'; subst; simpl;
        rewrite <- ?app_assoc; simpl; try done; congruence.
    + case_decide as Hq; [congruence|]. done.
Qed.

Lemma fold_attach_top (byId l : list (string * Node)) (t : Tree) (pid : string) :
  top_of (fold_left (fun t kv => attach byId t kv.2) l t) pid =
  (top_of t pid ++
   map (fun kv => n_id kv.2)
     (filter (fun kv => parent_target byId kv.2 = None /\ n_postId kv.2 = pid) l))%list.
Proof.
  revert t. induction l as [|kv l IH]; intros t; simpl.
  - by rewrite app_nil_r.
  - rewrite IH, filter_cons. unfold top_of. rewrite attach_alt.
    destruct (parent_target byId kv.2) as [q|] eqn:E; cbn [t_replies t_byPost].
    + case_decide as Hq; [destruct Hq; congruence|]. done.
    + rewrite push_lookup.
      case_decide as Hq; case_decide as Hq'; simpl;
        rewrite <- ?app_assoc; simpl; try done; naive_solver.
Qed.

Lemma build_tree_replies (byId : list (string * Node)) (p : string) :
  replies_of (build_tree byId) p =
  map (fun kv => n_id kv.2) (filter (fun kv => parent_target byId kv.2 = Some p) byId).
Proof. unfold build_tree. rewrite fold_attach_replies. reflexivity. Qed.

Lemma build_tree_top (byId : list (string * Node)) (pid : string) :
  top_of (build_tree byId) pid =
  map (fun kv => n_id kv.2)
    (filter (fun kv => parent_target byId kv.2 = None /\ n_postId kv.2 = pid) byId).
Proof. unfold build_tree. rewrite fold_attach_top. reflexivity. Qed.

Lemma decode_row_id (row : CommentRow) : n_id (decode_row row) = cr_id row.
Proof. reflexivity. Qed.

Lemma map_set_fresh (k : string) (v : Node) (m : list (string * Node)) :
  k ∉ map fst m -> map_set k v m = (m ++ [(k, v)])%list.
Proof. intros H. unfold map_set. by rewrite bool_decide_false. Qed.

Lemma build_byId_NoDup (rows : list CommentRow) :
  NoDup (map cr_id rows) ->
  build_byId rows = map (fun r => (cr_id r, decode_row r)) rows.
Proof.
  unfold build_byId.
  cut (forall acc, NoDup (map fst acc ++ map cr_id rows) ->
       fold_left (fun m row => let c := decode_row row in map_set (n_id c) c m) rows acc
       = (acc ++ map (fun r => (cr_id r, decode_row r)) rows)%list).
  { intros H Hnd. apply (H []). exact Hnd. }
  induction rows as [|r rows IH]; intros acc Hnd; cbn [fold_left map].
  - by rewrite app_nil_r.
  - cbv zeta. rewrite decode_row_id. rewrite map_set_fresh.
    + rewrite IH.
      * by rewrite <- app_assoc.
      * rewrite map_app, <- app_assoc. exact Hnd.
    + intros Hin. apply NoDup_app in Hnd as (_ & Hdis & _).
      apply (Hdis (cr_id r)); [exact Hin | left].
Qed.

End TreeBuilder.

(** ** C2: where a reply to a reply is attached *)

(** C2 (as the code does it). For every batch of comment rows, the replies
    array of the node under key [p] holds exactly the nodes whose parent
    reference resolves to [p] in the batch, in batch order, whether [p] is
    itself a top-level comment or a reply; the top-level array of a post
    holds exactly the nodes of that post whose parent reference does not
    resolve. No flattening to the top-level ancestor takes place. *)
Theorem listPosts_attaches_to_immediate_parent (rows : list CommentRow) (p pid : string) :
  let byId := ListPosts.build_byId rows in
  let t := ListPosts.build_tree byId in
  ListPosts.replies_of t p =
    map (fun kv => n_id kv.2)
      (filter (fun kv => ListPosts.parent_target byId kv.2 = Some p) byId) /\
  ListPosts.top_of t pid =
    map (fun kv => n_id kv.2)
      (filter (fun kv => ListPosts.parent_target byId kv.2 = None /\ n_postId kv.2 = pid) byId).
Proof.
  simpl. split; [apply build_tree_replies | apply build_tree_top].
Qed.

(** ** C3: [addReply] and the decoding in [listPosts] *)

Lemma trim_start_length (s : string) : String.length (JS.trim_start s) <= String.length s.
Proof. induction s as [|c r IH]; simpl; [lia|]. destruct (JS.is_space c); simpl; lia. Qed.

Lemma strip_prefix_app (p s : string) : ReplyPrefix.strip_prefix p (p ++ s) = Some s.
Proof.
  induction p as [|a p IH]; simpl; [done|]. by rewrite Ascii.eqb_refl.
Qed.

Lemma split_at_bracket_app (g r : string) :
  "]"%char ∉ list_ascii_of_string g ->
  ReplyPrefix.split_at_bracket (g ++ String "]" r) = Some (g, r).
Proof.
  induction g as [|a g IH]; intros Hg; simpl; [done|].
  destruct (Ascii.eqb_spec a "]"%char) as [->|Hne].
  - exfalso. apply Hg. left.
  - rewrite IH; [done|]. intros Hin. apply Hg. by right.
Qed.

Lemma match_reply_text (commentId content : string) :
  commentId <> "" -> "]"%char ∉ list_ascii_of_string commentId ->
  JS.trim_start content = content ->
  ReplyPrefix.match_reply (Remote.reply_text commentId content) = Some (commentId, content).
Proof.
  intros Hid Hnb Hsp. unfold ReplyPrefix.match_reply, Remote.reply_text.
  rewrite strip_prefix_app.
  change ("] " ++ content) with (String "]" (String " " content)).
  rewrite split_at_bracket_app by exact Hnb.
  destruct commentId as [|c cid]; [congruence|]. simpl. by rewrite Hsp.
Qed.

Lemma match_reply_text_any (commentId content : string) :
  commentId <> "" -> "]"%char ∉ list_ascii_of_string commentId ->
  ReplyPrefix.match_reply (Remote.reply_text commentId content) =
    Some (commentId, JS.trim_start content).
Proof.
  intros Hid Hnb. unfold ReplyPrefix.match_reply, Remote.reply_text.
  rewrite strip_prefix_app.
  change ("] " ++ content) with (String "]" (String " " content)).
  rewrite split_at_bracket_app by exact Hnb.
  destruct commentId as [|c cid]; [congruence|]. reflexivity.
Qed.

Lemma elem_of_map_entry (rows : list CommentRow) (row : CommentRow) :
  row ∈ rows -> (cr_id row, ListPosts.decode_row row) ∈
                  map (fun r => (cr_id r, ListPosts.decode_row r)) rows.
Proof.
  rewrite !list_elem_of_In. intros H.
  apply (in_map (fun r => (cr_id r, ListPosts.decode_row r))). exact H.
Qed.

Lemma elem_of_ids_filter (byId : list (string * Node)) (P : string * Node -> Prop)
    `{!forall kv, Decision (P kv)} (kv : string * Node) :
  kv ∈ byId -> P kv -> n_id kv.2 ∈ map (fun kv => n_id kv.2) (filter P byId).
Proof.
  intros Hin HP. rewrite list_elem_of_In. apply (in_map (fun kv => n_id kv.2)).
  rewrite <- list_elem_of_In, list_elem_of_filter. done.
Qed.

(** C3 (as the code does it). After a successful [addReply] by the
    signed-in user, the table holds one more row, with the new id. For a
    non-empty [commentId] without [']'], decoding that row in any batch of
    rows with distinct ids gives a node with parent [commentId] whose
    content is [content] with its leading white space removed: the
    original [content] when it does not begin with white space, and a
    shorter text when it does, because the [\s*] after the marker also
    eats the content's own leading white space. The node is appended to the
    replies of the comment [commentId] when that comment is in the batch,
    and to the top-level comments of [postId] otherwise. *)
Theorem addReply_listPosts_roundtrip (fresh_id : string) (now : Z)
    (postId commentId content : string) (db db' : Remote.Backend)
    (Hok : Remote.addReply fresh_id now postId commentId content db = Ok db')
    (Hcid : commentId <> "")
    (Hnb : "]"%char ∉ list_ascii_of_string commentId) :
  exists row,
    Remote.be_comments db' = (Remote.be_comments db ++ [row])%list /\
    cr_id row = fresh_id /\
    forall rows, row ∈ rows -> NoDup (map cr_id rows) ->
      let byId := ListPosts.build_byId rows in
      let t := ListPosts.build_tree byId in
      (fresh_id, ListPosts.decode_row row) ∈ byId /\
      n_content (ListPosts.decode_row row) = Some (JS.trim_start content) /\
      (JS.trim_start content = content ->
       n_content (ListPosts.decode_row row) = Some content) /\
      (forall c rest, content = String c rest -> JS.is_space c = true ->
       n_content (ListPosts.decode_row row) = Some (JS.trim_start rest) /\
       n_content (ListPosts.decode_row row) <> Some content) /\
      n_parentId (ListPosts.decode_row row) = Some commentId /\
      (commentId ∈ map fst byId -> fresh_id ∈ ListPosts.replies_of t commentId) /\
      (commentId ∉ map fst byId -> fresh_id ∈ ListPosts.top_of t postId).
Proof.
  unfold Remote.addReply in Hok.
  destruct (Remote.be_session db) as [u|] eqn:Hs; [|discriminate].
  injection Hok as <-.
  eexists. split; [reflexivity|]. split; [reflexivity|].
  intros rows Hin Hnd. simpl.
  match goal with |- context [ListPosts.decode_row ?r] => set (row := r) in * end.
  assert (Hdec_content : n_content (ListPosts.decode_row row) = Some (JS.trim_start content) /\
                         n_parentId (ListPosts.decode_row row) = Some commentId).
  { unfold ListPosts.decode_row. simpl.
    rewrite match_reply_text_any by assumption.
    unfold ReplyPrefix.strip_reply. rewrite match_reply_text_any by assumption.
    split; [done|].
    destruct (Remote.be_parent_column db); simpl;
      destruct commentId; simpl; congruence. }
  destruct Hdec_content as [Hc Hp].
  rewrite build_byId_NoDup by exact Hnd.
  pose proof (elem_of_map_entry rows row Hin) as Hentry.
  split; [exact Hentry|]. split; [exact Hc|].
  split.
  { intros Hsp. transitivity (Some (JS.trim_start content)); [exact Hc|].
    rewrite Hsp. reflexivity. }
  split.
  { intros c rest E Hsp.
    assert (Hts : JS.trim_start content = JS.trim_start rest)
      by (rewrite E; simpl; rewrite Hsp; reflexivity).
    split.
    - transitivity (Some (JS.trim_start content)); [exact Hc|]. rewrite Hts. reflexivity.
    - intros E2. pose proof (eq_trans (eq_sym Hc) E2) as E3.
      injection E3 as E3. rewrite Hts, E in E3.
      apply (f_equal String.length) in E3. simpl in E3.
      pose proof (trim_start_length rest). lia. }
  split; [exact Hp|].
  split.
  - intros Hres. rewrite build_tree_replies.
    apply (elem_of_ids_filter _ _ (cr_id row, ListPosts.decode_row row) Hentry).
    unfold ListPosts.parent_target. cbn [snd]. rewrite Hp.
    rewrite bool_decide_true by exact Hres.
    destruct commentId; [congruence|]. reflexivity.
  - intros Hres. rewrite build_tree_top.
    apply (elem_of_ids_filter _ _ (cr_id row, ListPosts.decode_row row) Hentry).
    unfold ListPosts.parent_target. cbn [snd]. rewrite Hp.
    rewrite bool_decide_false by exact Hres.
    rewrite andb_false_r. split; reflexivity.
Qed.

(** ** C4: the composer guard *)

(** C4. Pressing Share with no file and a caption that is empty after
    [trim] hands nothing to [onCreate]: no backend call is made, in
    particular no upload and no post insert. *)
Theorem share_empty_post_rejected (remote signed_in : bool) (files : list File)
    (caption : string) (Hfiles : files = []) (Hcaption : JS.trim caption = "") :
  Composer.submit files caption = None /\
  Composer.share_effects remote signed_in files caption = [].
Proof.
  subst files. unfold Composer.share_effects, Composer.submit. simpl.
  rewrite Hcaption. split; reflexivity.
Qed.

(** ** C5: signing up with a username that is taken *)

Lemma truthy_nonempty (s : string) : s <> "" -> JS.truthy s = true.
Proof. destruct s; [congruence | reflexivity]. Qed.

Lemma taken_by_other (db : Auth.AuthDB) (other : Profile) (id : string) :
  Auth.ad_profiles db !! pf_id other = Some other -> pf_id other <> id ->
  Auth.username_taken_by_other db id (pf_username other) = true.
Proof.
  intros Hother Hid. unfold Auth.username_taken_by_other.
  apply existsb_exists. exists other. split.
  - apply (in_map snd (map_to_list (Auth.ad_profiles db)) (pf_id other, other)).
    apply list_elem_of_In. apply elem_of_map_to_list. exact Hother.
  - rewrite String.eqb_refl. simpl.
    destruct (String.eqb_spec (pf_id other) id); [congruence | reflexivity].
Qed.

(** C5 (as the code does it). Remote [signUp] creates the account first;
    when the username belongs to another profile, the profile upsert is
    rejected by the uniqueness constraint and [signUp] fails with that
    error, but the new account stays, with no profile. Local [signUp]
    never fails: it signs the user in and overwrites any profile stored
    under the same id. *)
Theorem signUp_taken_username (fresh_id : string) (autoconfirm : bool)
    (email password name : string) (bio : option string) (db : Auth.AuthDB)
    (other : Profile) (st : Local.LocalState)
    (Hnew : email ∉ map Auth.acc_email (Auth.ad_accounts db))
    (Hname : name <> "")
    (Hother : Auth.ad_profiles db !! pf_id other = Some other)
    (Huser : pf_username other = name) (Hid : pf_id other <> fresh_id)
    (Hfresh : Auth.ad_profiles db !! fresh_id = None) :
  (let '(db', e) := Auth.signUp fresh_id autoconfirm email password (Some name) bio db in
   e = Some (BackendError "duplicate key value violates unique constraint") /\
   Auth.mkAccount fresh_id email password ∈ Auth.ad_accounts db' /\
   Auth.ad_profiles db' !! fresh_id = None) /\
  (let '(st', e) := Local.step (Local.LSignUp email (Some name) bio) st in
   e = None /\
   Local.ls_currentUser st' = Some (mkUser name (Some email)) /\
   Local.ls_profiles st' !! name =
     Some (mkProfile name name (Some (default "" (JS.or_str bio (Some "")))) (Some email))).
Proof.
  split.
  - unfold Auth.signUp, Auth.auth_signUp.
    rewrite bool_decide_false by exact Hnew. simpl.
    rewrite (truthy_nonempty name Hname).
    unfold Auth.upsert_profile. simpl.
    assert (Htaken : Auth.username_taken_by_other
              (Auth.mkAuthDB (Auth.ad_accounts db ++ [Auth.mkAccount fresh_id email password])%list
                 (Auth.ad_profiles db)
                 (if autoconfirm then Some (mkUser fresh_id (Some email)) else Auth.ad_session db)
                 (if autoconfirm then Auth.ad_unconfirmed db
                  else (Auth.ad_unconfirmed db ++ [fresh_id])%list))
              fresh_id name = true).
    { rewrite <- Huser. apply taken_by_other; assumption. }
    rewrite Htaken. simpl. split; [reflexivity|]. split; [|exact Hfresh].
    apply list_elem_of_In, in_or_app. right. left. reflexivity.
  - simpl. destruct name as [|c n]; [congruence|]. simpl.
    split; [reflexivity|]. split; [reflexivity|]. apply lookup_insert_eq.
Qed.

(** ** C6: signing in with a username *)

(** C6. For an identifier that is not email-shaped, [signIn] looks the
    identifier up as a username: when that yields no email it fails
    ('Username not found') and the session is unchanged; otherwise it
    authenticates with the email found, and fails with the service's
    invalid-credentials error, session unchanged, when no account has that
    email and password. *)
Theorem signIn_by_username (identifier password : string) (db : Auth.AuthDB)
    (Hnot_email : Auth.email_shaped identifier = false) :
  (Auth.lookup_email db identifier = None ->
     Auth.signIn identifier password db = (db, Some (ThrownError "Username not found"))) /\
  (forall email, Auth.lookup_email db identifier = Some email ->
     Auth.signIn identifier password db = Auth.auth_signInWithPassword email password db /\
     ((forall a, a ∈ Auth.ad_accounts db ->
         ~ (Auth.acc_email a = email /\ Auth.acc_password a = password)) ->
      Auth.signIn identifier password db =
        (db, Some (BackendError "Invalid login credentials")))).
Proof.
  unfold Auth.signIn. rewrite Hnot_email. split.
  - intros H. rewrite H. reflexivity.
  - intros email H. rewrite H. split; [reflexivity|].
    intros Hno. unfold Auth.auth_signInWithPassword.
    destruct (find _ (Auth.ad_accounts db)) as [a|] eqn:Hf; [|reflexivity].
    apply find_some in Hf as [Hin Hmatch].
    apply andb_prop in Hmatch as [He Hp].
    apply String.eqb_eq in He, Hp.
    exfalso. apply (Hno a); [apply list_elem_of_In; exact Hin | split; assumption].
Qed.

(** ** C8: the profile cache *)

(** C8 (as the code does it). A [getProfile] that found a profile caches
    it: on a cache miss it queries the table and stores the profile found,
    and the next [getProfile] of that id returns it with no query. A lookup
    that finds no profile caches nothing: [n] successive calls for that id
    each return nothing and each query the table again, the cache left as
    it was. A successful [updateProfile] drops the caller's entry, so the
    next [getProfile] of the caller's id queries again and returns the
    updated profile. *)
Theorem getProfile_cache_and_invalidation :
  (forall id l l1 db p,
     Auth.getProfile id l db = (Some p, l1) ->
     Auth.getProfile id l1 db = (Some p, l1)) /\
  (forall id l db p,
     Auth.rl_cache l !! id = None -> Auth.ad_profiles db !! id = Some p ->
     Auth.getProfile id l db =
       (Some p, Auth.mkLayer (<[id := p]> (Auth.rl_cache l)) (Auth.rl_queries l ++ [id])%list)) /\
  (forall id l db,
     Auth.rl_cache l !! id = None -> Auth.ad_profiles db !! id = None ->
     forall n,
       let ln := Nat.iter n (fun l' => (Auth.getProfile id l' db).2) l in
       ln = Auth.mkLayer (Auth.rl_cache l) (Auth.rl_queries l ++ repeat id n)%list /\
       (Auth.getProfile id ln db).1 = None) /\
  (forall username bio l db l' db' u,
     Auth.ad_session db = Some u ->
     Auth.updateProfile username bio l db = (l', db', None) ->
     exists l'',
       Auth.getProfile (user_id u) l' db' =
         (Some (mkProfile (user_id u) username
                  (Some (default "" (JS.or_str bio (Some "")))) (user_email u)), l'') /\
       Auth.rl_queries l'' = (Auth.rl_queries l' ++ [user_id u])%list).
Proof.
  split; [|split; [|split]].
  - intros id l l1 db p H. unfold Auth.getProfile in H.
    destruct (Auth.rl_cache l !! id) as [q|] eqn:Hc.
    + injection H as -> <-. unfold Auth.getProfile. rewrite Hc. reflexivity.
    + destruct (Auth.ad_profiles db !! id) as [q|] eqn:Hp; [|discriminate].
      injection H as -> <-. unfold Auth.getProfile. simpl.
      rewrite lookup_insert_eq. reflexivity.
  - intros id l db p Hc Hp. unfold Auth.getProfile. rewrite Hc, Hp. reflexivity.
  - intros id l db Hc Hp n. cbv zeta.
    assert (Hl : Nat.iter n (fun l' => (Auth.getProfile id l' db).2) l =
                 Auth.mkLayer (Auth.rl_cache l) (Auth.rl_queries l ++ repeat id n)%list).
    { induction n as [|n IH]; simpl.
      - destruct l. simpl. rewrite app_nil_r. reflexivity.
      - rewrite IH. unfold Auth.getProfile. cbn [Auth.rl_cache Auth.rl_queries].
        rewrite Hc, Hp. cbn [snd]. f_equal. rewrite <- app_assoc. f_equal.
        clear IH. induction n as [|n IHn]; simpl; [reflexivity|]. rewrite IHn. reflexivity. }
    split; [exact Hl|]. rewrite Hl. unfold Auth.getProfile. simpl. rewrite Hc, Hp. reflexivity.
  - intros username bio l db l' db' u Hs H. unfold Auth.updateProfile in H.
    rewrite Hs in H. unfold Auth.upsert_profile in H.
    destruct (Auth.username_taken_by_other _ _ _); [discriminate|].
    injection H as <- <-.
    eexists. split.
    + unfold Auth.getProfile. simpl. rewrite lookup_delete_eq.
      rewrite lookup_insert_eq. reflexivity.
    + reflexivity.
Qed.

(** ** C9: [isAdmin] *)

(** C9 (as the code does it). With the remote layer, [isAdmin] holds
    exactly when a user with a non-empty email is signed in, a non-empty
    admin email is configured, and both lower-case to the same string; the
    local layer always reports [isAdmin = true]. *)
Theorem isAdmin_by_layer (env : Env) (user : option User) :
  (env_truthy (env_url env) && env_truthy (env_anon env) = true ->
     (layer_isAdmin env user = true <->
      exists u e a, user = Some u /\ user_email u = Some e /\ env_admin_email env = Some a /\
                    e <> "" /\ a <> "" /\ JS.to_lower e = JS.to_lower a)) /\
  (env_truthy (env_url env) && env_truthy (env_anon env) = false ->
     layer_isAdmin env user = true).
Proof.
  unfold layer_isAdmin. split; intros Hm; rewrite Hm; [|reflexivity].
  unfold Auth.supabase_isAdmin. split.
  - destruct user as [u|]; [|discriminate].
    destruct (user_email u) as [e|] eqn:He; [|discriminate].
    destruct (env_admin_email env) as [a|] eqn:Ha; [|discriminate].
    intros H. apply andb_prop in H as [H Heq]. apply andb_prop in H as [Hte Hta].
    apply String.eqb_eq in Heq.
    exists u, e, a. repeat split; try reflexivity; try assumption.
    + intros ->. discriminate.
    + intros ->. discriminate.
  - intros (u & e & a & -> & He & Ha & Hne & Hna & Hl).
    rewrite He, Ha, (truthy_nonempty e Hne), (truthy_nonempty a Hna).
    simpl. apply String.eqb_eq. exact Hl.
Qed.

(** ** C10: local reactions *)

(** C10. In local mode [toggleReactPost] changes nothing: the state, and
    so every post with its [likesUp] and [likesDown], is left as it was,
    and nothing is thrown. *)
Theorem local_toggleReactPost_noop (postId : string) (type : ReactType)
    (st : Local.LocalState) :
  Local.step (Local.LToggleReactPost postId type) st = (st, None) /\
  Local.listPosts (Local.step (Local.LToggleReactPost postId type) st).1 = Local.listPosts st.
Proof. split; reflexivity. Qed.

(** ** C7: order and size of the [listPosts] result *)

Section SortedLists.
Context {A B : Type}.

Lemma StronglySorted_map_rel (R : A -> A -> Prop) (R' : B -> B -> Prop) (f : A -> B)
    (l : list A) :
  (forall x y, R x y -> R' (f x) (f y)) -> StronglySorted R l -> StronglySorted R' (map f l).
Proof.
  intros Hf. induction 1 as [|a l _ IH HF]; simpl; [constructor|].
  constructor; [exact IH|].
  clear IH. induction HF as [|x l Hx _ IHl]; simpl; constructor.
  - apply Hf. exact Hx.
  - exact IHl.
Qed.

Lemma Forall_filter_sub (P : A -> Prop) (Q : A -> Prop) `{!forall x, Decision (Q x)}
    (l : list A) :
  Forall P l -> Forall P (filter Q l).
Proof.
  induction 1 as [|a l Ha _ IH]; [constructor|].
  rewrite filter_cons. case_decide; [constructor|]; assumption.
Qed.

Lemma StronglySorted_filter (R : A -> A -> Prop) (Q : A -> Prop)
    `{!forall x, Decision (Q x)} (l : list A) :
  StronglySorted R l -> StronglySorted R (filter Q l).
Proof.
  induction 1 as [|a l _ IH HF]; [constructor|].
  rewrite filter_cons. case_decide; [|exact IH].
  constructor; [exact IH|]. apply Forall_filter_sub. exact HF.
Qed.

Lemma Forall_firstn_sub (P : A -> Prop) (n : nat) (l : list A) :
  Forall P l -> Forall P (firstn n l).
Proof.
  revert l. induction n as [|n IH]; intros [|a l] H; simpl; try constructor.
  - inversion H; assumption.
  - apply IH. inversion H; assumption.
Qed.

Lemma StronglySorted_firstn (R : A -> A -> Prop) (n : nat) (l : list A) :
  StronglySorted R l -> StronglySorted R (firstn n l).
Proof.
  revert l. induction n as [|n IH]; intros [|a l] H; simpl; try constructor.
  - apply IH. inversion H; assumption.
  - apply Forall_firstn_sub. inversion H; assumption.
Qed.

End SortedLists.

Lemma NoDup_map_filter {A} (f : A -> string) (Q : A -> Prop) `{!forall x, Decision (Q x)}
    (l : list A) :
  NoDup (map f l) -> NoDup (map f (filter Q l)).
Proof.
  induction l as [|a l IH]; intros Hnd; [constructor|].
  rewrite filter_cons. simpl in Hnd. apply NoDup_cons in Hnd as [Hn Hl].
  case_decide; simpl; [|auto].
  apply NoDup_cons. split; [|auto].
  intros Hin. apply Hn. rewrite list_elem_of_In in Hin |- *.
  apply in_map_iff in Hin as (x & <- & Hx).
  apply in_map. apply list_elem_of_In in Hx. apply list_elem_of_filter in Hx as [_ Hx].
  apply list_elem_of_In. exact Hx.
Qed.

Lemma sorted_posts_newest_first (db : Remote.Backend) :
  StronglySorted (fun a b => (pr_created_at b <= pr_created_at a)%Z)
    (firstn 50 (PostSort.sort (Remote.be_posts db))).
Proof.
  apply StronglySorted_firstn.
  rewrite <- (List.map_id (PostSort.sort _)).
  apply (StronglySorted_map_rel (fun x y => PostNewestFirst.leb x y = true)).
  - intros x y H. unfold PostNewestFirst.leb in H. apply Z.leb_le in H. exact H.
  - apply PostSort.StronglySorted_sort.
    intros x y z Hxy Hyz. unfold is_true, PostNewestFirst.leb in *.
    rewrite Z.leb_le in *. lia.
Qed.

Lemma sorted_comments_oldest_first (l : list CommentRow) :
  StronglySorted (fun a b => (cr_created_at a <= cr_created_at b)%Z) (CommentSort.sort l).
Proof.
  rewrite <- (List.map_id (CommentSort.sort _)).
  apply (StronglySorted_map_rel (fun x y => CommentOldestFirst.leb x y = true)).
  - intros x y H. unfold CommentOldestFirst.leb in H. apply Z.leb_le in H. exact H.
  - apply CommentSort.StronglySorted_sort.
    intros x y z Hxy Hyz. unfold is_true, CommentOldestFirst.leb in *.
    rewrite Z.leb_le in *. lia.
Qed.

(** Selecting nodes of [byId] by a property of the node: the selected
    nodes keep the ascending order of the rows and are exactly the nodes
    with the property. *)
Lemma select_nodes (comments : list CommentRow) (P : string * Node -> Prop)
    `{!forall kv, Decision (P kv)}
    (HP : forall kv kv', kv.2 = kv'.2 -> P kv -> P kv')
    (Hs : StronglySorted (fun a b => (cr_created_at a <= cr_created_at b)%Z) comments) :
  let byId := map (fun r => (cr_id r, ListPosts.decode_row r)) comments in
  let nodes := map snd (filter P byId) in
  map (fun kv => n_id kv.2) (filter P byId) = map n_id nodes /\
  Sorted (fun a b => (n_createdAt a <= n_createdAt b)%Z) nodes /\
  (forall n, n ∈ nodes -> (n_id n, n) ∈ byId) /\
  (forall kv, kv ∈ byId -> (kv.2 ∈ nodes <-> P kv)).
Proof.
  cbv zeta. split; [|split; [|split]].
  - rewrite map_map. reflexivity.
  - apply StronglySorted_Sorted.
    apply (StronglySorted_map_rel (fun a b : string * Node =>
             (n_createdAt a.2 <= n_createdAt b.2)%Z)); [intros x y Hxy; exact Hxy|].
    apply StronglySorted_filter.
    apply (StronglySorted_map_rel (fun a b => (cr_created_at a <= cr_created_at b)%Z));
      [intros x y Hxy; exact Hxy | exact Hs].
  - intros n Hn.
    apply list_elem_of_In, in_map_iff in Hn as (kv & <- & Hkv).
    apply list_elem_of_In, list_elem_of_filter in Hkv as [_ Hkv].
    assert (Hkey : kv.1 = n_id kv.2).
    { apply list_elem_of_In, in_map_iff in Hkv as (r & <- & _). reflexivity. }
    rewrite <- Hkey. destruct kv. exact Hkv.
  - intros kv Hkv. split.
    + intros Hn. apply list_elem_of_In, in_map_iff in Hn as (kv' & E & Hkv').
      apply list_elem_of_In, list_elem_of_filter in Hkv' as [HPk _].
      exact (HP kv' kv E HPk).
    + intros HPk. apply list_elem_of_In, in_map. apply list_elem_of_In, list_elem_of_filter.
      split; [exact HPk | exact Hkv].
Qed.

Lemma remote_listPosts_order (db : Remote.Backend) :
  let res := Remote.listPosts db in
  List.length (Remote.lr_posts res) <= 50 /\
  Sorted (fun a b => (ListPosts.op_createdAt b <= ListPosts.op_createdAt a)%Z)
    (Remote.lr_posts res) /\
  (NoDup (map cr_id (Remote.be_comments db)) ->
   forall p, p ∈ Remote.lr_posts res ->
     let byId := Remote.lr_byId res in
     (forall row, row ∈ Remote.be_comments db -> cr_post_id row = ListPosts.op_id p ->
        (cr_id row, ListPosts.decode_row row) ∈ byId) /\
     (exists nodes,
        ListPosts.op_comments p = map n_id nodes /\
        Sorted (fun a b => (n_createdAt a <= n_createdAt b)%Z) nodes /\
        (forall n, n ∈ nodes -> (n_id n, n) ∈ byId) /\
        (forall kv, kv ∈ byId ->
           (kv.2 ∈ nodes <->
            n_postId kv.2 = ListPosts.op_id p /\ ListPosts.parent_target byId kv.2 = None))) /\
     (forall k, exists replies,
        ListPosts.replies_of (Remote.lr_tree res) k = map n_id replies /\
        Sorted (fun a b => (n_createdAt a <= n_createdAt b)%Z) replies /\
        (forall n, n ∈ replies -> (n_id n, n) ∈ byId) /\
        (forall kv, kv ∈ byId ->
           (kv.2 ∈ replies <-> ListPosts.parent_target byId kv.2 = Some k)))).
Proof.
  unfold Remote.listPosts. simpl.
  pose proof (sorted_posts_newest_first db) as Hsorted.
  assert (Hle : List.length (firstn 50 (PostSort.sort (Remote.be_posts db))) <= 50)
    by (rewrite length_firstn; lia).
  destruct (firstn 50 (PostSort.sort (Remote.be_posts db))) as [|p0 ps] eqn:Hposts.
  { simpl. split; [lia|]. split; [constructor|].
    intros _ p Hp. apply list_elem_of_In in Hp. destruct Hp. }
  set (posts := p0 :: ps) in *.
  set (comments := CommentSort.sort
                     (filter (fun r => cr_post_id r ∈ map pr_id posts) (Remote.be_comments db))).
  set (byId := ListPosts.build_byId comments).
  set (t := ListPosts.build_tree byId).
  simpl. split; [rewrite length_map; unfold posts in *; simpl in Hle |- *; lia|]. split.
  - apply StronglySorted_Sorted.
    apply (StronglySorted_map_rel (fun a b => (pr_created_at b <= pr_created_at a)%Z) _
             (ListPosts.out_post t) posts); [|exact Hsorted].
    intros x y H. exact H.
  - intros Hnd p Hp.
    change (p ∈ map (ListPosts.out_post t) posts) in Hp.
    apply list_elem_of_In, in_map_iff in Hp as (q & <- & Hq).
    assert (Hperm : Permutation (filter (fun r => cr_post_id r ∈ map pr_id posts)
                                   (Remote.be_comments db)) comments)
      by apply CommentSort.Permuted_sort.
    assert (Hnd' : NoDup (map cr_id comments)).
    { apply NoDup_ListNoDup.
      apply (Permutation_NoDup (l := map cr_id (filter (fun r => cr_post_id r ∈ map pr_id posts)
                                                   (Remote.be_comments db)))).
      - apply Permutation_map, Hperm.
      - apply NoDup_ListNoDup, NoDup_map_filter. exact Hnd. }
    assert (HbyId : byId = map (fun r => (cr_id r, ListPosts.decode_row r)) comments).
    { apply build_byId_NoDup. exact Hnd'. }
    pose proof (sorted_comments_oldest_first
                  (filter (fun r => cr_post_id r ∈ map pr_id posts) (Remote.be_comments db)))
      as Hcs.
    fold comments in Hcs.
    split; [|split].
    + intros row Hrow Hpid. change (cr_post_id row = pr_id q) in Hpid.
      rewrite HbyId. apply elem_of_map_entry.
      apply list_elem_of_In. apply (Permutation_in _ Hperm). apply list_elem_of_In.
      apply list_elem_of_filter. split; [|exact Hrow].
      rewrite Hpid. apply list_elem_of_In, in_map. exact Hq.
    + set (P := fun kv : string * Node =>
                  ListPosts.parent_target byId kv.2 = None /\ n_postId kv.2 = pr_id q).
      destruct (select_nodes comments P (fun kv kv' E H => ltac:(unfold P in *; rewrite <- E; exact H)) Hcs)
        as (Hids & Hsrt & Hin & Hiff).
      rewrite <- HbyId in Hids, Hsrt, Hin, Hiff.
      exists (map snd (filter P byId)). split; [|split; [|split]].
      * change (ListPosts.top_of t (pr_id q) = map n_id (map snd (filter P byId))).
        unfold t. rewrite build_tree_top. exact Hids.
      * exact Hsrt.
      * exact Hin.
      * intros kv Hkv. rewrite (Hiff kv Hkv). unfold P. simpl. tauto.
    + intros k.
      set (P := fun kv : string * Node => ListPosts.parent_target byId kv.2 = Some k).
      destruct (select_nodes comments P (fun kv kv' E H => ltac:(unfold P in *; rewrite <- E; exact H)) Hcs)
        as (Hids & Hsrt & Hin & Hiff).
      rewrite <- HbyId in Hids, Hsrt, Hin, Hiff.
      exists (map snd (filter P byId)). split; [|split; [|split]].
      * unfold t. rewrite build_tree_replies. exact Hids.
      * exact Hsrt.
      * exact Hin.
      * exact Hiff.
Qed.

Section LocalOrder.
Import Local.

Lemma ordered_until_mono (t t' : Z) (st : LocalState) :
  (t <= t')%Z -> ordered_until t st -> ordered_until t' st.
Proof.
  intros Ht [Hs Hf]. split; [exact Hs|].
  eapply Forall_impl; [exact Hf|]. intros p Hp. simpl in Hp. lia.
Qed.

Lemma map_post_ordered (t : Z) (postId : string) (f : LPost -> LPost) (st : LocalState) :
  (forall p, lp_createdAt (f p) = lp_createdAt p) ->
  ordered_until t st -> ordered_until t (set_posts st (map_post postId f (ls_posts st))).
Proof.
  intros Hf [Hs Hb]. unfold ordered_until, set_posts, map_post. cbn [ls_posts].
  assert (Hg : forall p, lp_createdAt (if String.eqb (lp_id p) postId then f p else p)
                         = lp_createdAt p).
  { intros p. destruct (String.eqb _ _); [apply Hf | reflexivity]. }
  split.
  - apply (StronglySorted_map_rel newest_first); [|exact Hs].
    intros x y H. unfold newest_first in *. rewrite !Hg. exact H.
  - apply Forall_map. eapply Forall_impl; [exact Hb|]. intros p Hp. simpl. rewrite Hg. exact Hp.
Qed.

Lemma filter_posts_ordered (t : Z) (Q : LPost -> Prop) `{!forall x, Decision (Q x)}
    (st : LocalState) :
  ordered_until t st -> ordered_until t (set_posts st (filter Q (ls_posts st))).
Proof.
  intros [Hs Hb]. split; cbn [set_posts ls_posts].
  - apply StronglySorted_filter. exact Hs.
  - apply Forall_filter_sub. exact Hb.
Qed.

Lemma step_ordered (op : LocalOp) (st : LocalState) (t : Z) :
  ordered_until t st ->
  match op_time op with
  | Some now => (t <= now)%Z -> ordered_until now (step op st).1
  | None => ordered_until t (step op st).1
  end.
Proof.
  intros Hinv.
  destruct op as [identifier|email username bio| |files caption fresh now
                 |postId content fresh now|postId caption|postId commentId content fresh now
                 |postId|postId type|userId|username bio|now fresh1 fresh2];
    cbn [op_time step fst].
  - exact Hinv.
  - exact Hinv.
  - exact Hinv.
  - intros Ht. destruct Hinv as [Hs Hb]. unfold set_posts. split; cbn [ls_posts].
    + constructor; [exact Hs|].
      eapply Forall_impl; [exact Hb|]. intros p Hp. unfold newest_first. simpl in Hp |- *. lia.
    + constructor; [simpl; lia|].
      eapply Forall_impl; [exact Hb|]. intros p Hp. simpl in Hp. lia.
  - intros Ht. apply (ordered_until_mono t); [exact Ht|].
    apply map_post_ordered; [reflexivity|exact Hinv].
  - apply map_post_ordered; [reflexivity|exact Hinv].
  - intros Ht. apply (ordered_until_mono t); [exact Ht|].
    apply map_post_ordered; [reflexivity|exact Hinv].
  - apply filter_posts_ordered. exact Hinv.
  - exact Hinv.
  - apply filter_posts_ordered. exact Hinv.
  - exact Hinv.
  - intros _. split; cbn [ls_posts].
    + repeat constructor; unfold newest_first; simpl; lia.
    + repeat constructor; simpl; lia.
Qed.

Lemma run_ordered (ops : list LocalOp) (st : LocalState) (t : Z) :
  clock_from t ops -> ordered_until t st -> StronglySorted newest_first (ls_posts (run ops st)).
Proof.
  revert st t. induction ops as [|op ops IH]; intros st t Hclock Hinv; simpl.
  - exact (proj1 Hinv).
  - pose proof (step_ordered op st t Hinv) as Hstep. simpl in Hclock.
    destruct (op_time op) as [now|].
    + destruct Hclock as [Ht Hc]. exact (IH _ now Hc (Hstep Ht)).
    + exact (IH _ t Hclock Hstep).
Qed.

End LocalOrder.

(** C7 (amended). The remote [listPosts] returns at most 50 posts, newest
    first. When comment ids are distinct, every comment row of a returned
    post is decoded into [byId]; the post's [comments] list holds exactly
    the [byId] nodes of that post whose parent reference does not resolve
    (its top-level comments), in ascending creation time; and the
    [replies] array of each node holds exactly the [byId] nodes whose
    parent reference resolves to it, in ascending creation time.
    The local [listPosts] returns every post of the state, with no bound; the
    posts are newest first when the clock read by the operations never goes
    back. *)
Theorem listPosts_page_and_order (db : Remote.Backend) (ops : list Local.LocalOp) (t0 : Z)
    (Hclock : Local.clock_from t0 ops) :
  (List.length (Remote.lr_posts (Remote.listPosts db)) <= 50 /\
   Sorted (fun a b => (ListPosts.op_createdAt b <= ListPosts.op_createdAt a)%Z)
     (Remote.lr_posts (Remote.listPosts db)) /\
   (NoDup (map cr_id (Remote.be_comments db)) ->
    forall p, p ∈ Remote.lr_posts (Remote.listPosts db) ->
      let byId := Remote.lr_byId (Remote.listPosts db) in
      (forall row, row ∈ Remote.be_comments db -> cr_post_id row = ListPosts.op_id p ->
         (cr_id row, ListPosts.decode_row row) ∈ byId) /\
      (exists nodes,
         ListPosts.op_comments p = map n_id nodes /\
         Sorted (fun a b => (n_createdAt a <= n_createdAt b)%Z) nodes /\
         (forall n, n ∈ nodes -> (n_id n, n) ∈ byId) /\
         (forall kv, kv ∈ byId ->
            (kv.2 ∈ nodes <->
             n_postId kv.2 = ListPosts.op_id p /\ ListPosts.parent_target byId kv.2 = None))) /\
      (forall k, exists replies,
         ListPosts.replies_of (Remote.lr_tree (Remote.listPosts db)) k = map n_id replies /\
         Sorted (fun a b => (n_createdAt a <= n_createdAt b)%Z) replies /\
         (forall n, n ∈ replies -> (n_id n, n) ∈ byId) /\
         (forall kv, kv ∈ byId ->
            (kv.2 ∈ replies <-> ListPosts.parent_target byId kv.2 = Some k))))) /\
  Sorted Local.newest_first (Local.listPosts (Local.run ops Local.init)).
Proof.
  split.
  - exact (remote_listPosts_order db).
  - apply StronglySorted_Sorted. unfold Local.listPosts.
    apply (run_ordered ops Local.init t0 Hclock).
    split; constructor.
Qed.

(** ** Witnesses: each theorem applied at a concrete input *)

Lemma toggleReactPost_up_twice_and_exclusive_witness :
  Toggle.db_session Examples.toggle_db = Some Examples.alice /\
  Toggle.db_posts Examples.toggle_db !! "p1" = Some Examples.post_row /\
  (exists db1 db2,
      Toggle.toggleReactPost "p1" Up Examples.toggle_db = Ok db1 /\
      Toggle.toggleReactPost "p1" Up db1 = Ok db2 /\
      (forall x, x ∈ Toggle.up_set db2 "p1" <-> x ∈ Toggle.up_set Examples.toggle_db "p1")).
Proof.
  assert (H1 : Toggle.db_session Examples.toggle_db = Some Examples.alice) by reflexivity.
  assert (H2 : Toggle.db_posts Examples.toggle_db !! "p1" = Some Examples.post_row)
    by (vm_compute; reflexivity).
  split; [exact H1|]. split; [exact H2|].
  exact (proj1 (toggleReactPost_up_twice_and_exclusive Examples.toggle_db "p1"
                  Examples.alice Examples.post_row H1 H2)).
Defined.

Lemma addReply_listPosts_roundtrip_witness :
  Remote.addReply "r1" 5 "p1" "c1" "hi" Examples.reply_backend = Ok (Examples.after_reply "hi") /\
  exists row,
    Remote.be_comments (Examples.after_reply "hi") =
      (Remote.be_comments Examples.reply_backend ++ [row])%list /\
    cr_id row = "r1".
Proof.
  assert (Hok : Remote.addReply "r1" 5 "p1" "c1" "hi" Examples.reply_backend =
                  Ok (Examples.after_reply "hi")) by reflexivity.
  assert (Hcid : "c1" <> "") by discriminate.
  assert (Hnb : "]"%char ∉ list_ascii_of_string "c1")
    by (apply (bool_decide_unpack _); vm_compute; exact I).
  split; [exact Hok|].
  destruct (addReply_listPosts_roundtrip "r1" 5 "p1" "c1" "hi" _ _ Hok Hcid Hnb)
    as (row & Hrows & Hid & _).
  exists row. split; [exact Hrows | exact Hid].
Defined.

Lemma share_empty_post_rejected_witness :
  JS.trim " 	 " = "" /\
  Composer.submit [] " 	 " = None /\ Composer.share_effects true true [] " 	 " = [].
Proof.
  assert (Hc : JS.trim " 	 " = "") by reflexivity.
  split; [exact Hc|].
  exact (share_empty_post_rejected true true [] " 	 " eq_refl Hc).
Defined.

Lemma signUp_taken_username_witness :
  ("new@example.com" ∉ map Auth.acc_email (Auth.ad_accounts Examples.auth_db)) /\
  Auth.ad_profiles Examples.auth_db !! "u9" = Some Examples.bob_profile /\
  Auth.ad_profiles Examples.auth_db !! "u10" = None /\
  (let '(db', e) := Auth.signUp "u10" true "new@example.com" "pw" (Some "bob") None
                      Examples.auth_db in
   e = Some (BackendError "duplicate key value violates unique constraint") /\
   Auth.mkAccount "u10" "new@example.com" "pw" ∈ Auth.ad_accounts db' /\
   Auth.ad_profiles db' !! "u10" = None).
Proof.
  assert (Hnew : "new@example.com" ∉ map Auth.acc_email (Auth.ad_accounts Examples.auth_db))
    by (apply (bool_decide_unpack _); vm_compute; exact I).
  assert (Hname : "bob" <> "") by discriminate.
  assert (Hother : Auth.ad_profiles Examples.auth_db !! pf_id Examples.bob_profile =
                     Some Examples.bob_profile) by (vm_compute; reflexivity).
  assert (Huser : pf_username Examples.bob_profile = "bob") by reflexivity.
  assert (Hid : pf_id Examples.bob_profile <> "u10") by discriminate.
  assert (Hfresh : Auth.ad_profiles Examples.auth_db !! "u10" = None) by (vm_compute; reflexivity).
  split; [exact Hnew|]. split; [exact Hother|]. split; [exact Hfresh|].
  exact (proj1 (signUp_taken_username "u10" true "new@example.com" "pw" "bob" None
                  Examples.auth_db Examples.bob_profile Local.init
                  Hnew Hname Hother Huser Hid Hfresh)).
Defined.

Lemma signIn_by_username_witness :
  Auth.email_shaped "bob" = false /\
  Auth.lookup_email Examples.auth_db "bob" = Some "bob@example.com" /\
  Auth.signIn "bob" "wrong" Examples.auth_db =
    Auth.auth_signInWithPassword "bob@example.com" "wrong" Examples.auth_db.
Proof.
  assert (Hne : Auth.email_shaped "bob" = false) by (vm_compute; reflexivity).
  assert (Hl : Auth.lookup_email Examples.auth_db "bob" = Some "bob@example.com") by (vm_compute; reflexivity).
  split; [exact Hne|]. split; [exact Hl|].
  exact (proj1 (proj2 (signIn_by_username "bob" "wrong" Examples.auth_db Hne)
                  "bob@example.com" Hl)).
Defined.

Lemma listPosts_page_and_order_witness :
  Local.clock_from 0 Examples.two_posts /\
  Sorted Local.newest_first (Local.listPosts (Local.run Examples.two_posts Local.init)).
Proof.
  assert (Hclock : Local.clock_from 0 Examples.two_posts) by (simpl; lia).
  split; [exact Hclock|].
  exact (proj2 (listPosts_page_and_order Examples.reply_backend Examples.two_posts 0 Hclock)).
Defined.

Lemma getProfile_cache_and_invalidation_witness :
  Auth.getProfile "u9" Examples.layer0 Examples.auth_db =
    (Some Examples.bob_profile, Examples.layer1) /\
  Auth.getProfile "u9" Examples.layer1 Examples.auth_db =
    (Some Examples.bob_profile, Examples.layer1).
Proof.
  assert (H : Auth.getProfile "u9" Examples.layer0 Examples.auth_db =
                (Some Examples.bob_profile, Examples.layer1)) by (vm_compute; reflexivity).
  split; [exact H|].
  exact (proj1 getProfile_cache_and_invalidation "u9" Examples.layer0 Examples.layer1
           Examples.auth_db Examples.bob_profile H).
Defined.

Lemma isAdmin_by_layer_witness :
  env_truthy (env_url Examples.remote_env) && env_truthy (env_anon Examples.remote_env) = true /\
  (layer_isAdmin Examples.remote_env (Some Examples.alice) = true <->
   exists u e a, Some Examples.alice = Some u /\ user_email u = Some e /\
                 env_admin_email Examples.remote_env = Some a /\
                 e <> "" /\ a <> "" /\ JS.to_lower e = JS.to_lower a).
Proof.
  assert (Hm : env_truthy (env_url Examples.remote_env) &&
               env_truthy (env_anon Examples.remote_env) = true) by reflexivity.
  split; [exact Hm|].
  exact (proj1 (isAdmin_by_layer Examples.remote_env (Some Examples.alice)) Hm).
Defined.

(** ** Counterexamples to the claims as stated *)

(** C2: a reply to the reply [c2] is attached to [c2], not to the top-level
    comment [c1]: the tree is two reply levels deep. *)
Lemma reply_to_reply_stays_nested :
  ListPosts.replies_of (ListPosts.build_tree (ListPosts.build_byId Examples.thread)) "c1" = ["c2"] /\
  ListPosts.replies_of (ListPosts.build_tree (ListPosts.build_byId Examples.thread)) "c2" = ["c3"] /\
  ListPosts.top_of (ListPosts.build_tree (ListPosts.build_byId Examples.thread)) "p1" = ["c1"].
Proof. vm_compute. repeat split. Qed.

(** C3: the reply content " hi" comes back from [listPosts] as "hi": the
    [\s*] of the decoding regex also eats the content's own leading space. *)
Lemma reply_leading_space_lost :
  Remote.addReply "r1" 5 "p1" "c1" " hi" Examples.reply_backend = Ok (Examples.after_reply " hi") /\
  map (fun kv => n_content kv.2)
      (ListPosts.build_byId (Remote.be_comments (Examples.after_reply " hi"))) =
    [Some "first"; Some "hi"].
Proof. split; vm_compute; reflexivity. Qed.

(** C5: remote [signUp] with the taken username "bob" fails but leaves the
    account "u10" behind with no profile; local [signUp] with the username
    "bob" succeeds and replaces bob's profile. *)
Lemma signUp_taken_username_partial :
  (let '(db', e) := Auth.signUp "u10" true "eve@example.com" "pw" (Some "bob") None
                      Examples.auth_db in
   e = Some (BackendError "duplicate key value violates unique constraint") /\
   map Auth.acc_id (Auth.ad_accounts db') = ["u9"; "u10"] /\
   Auth.ad_profiles db' !! "u10" = None) /\
  Local.ls_profiles Examples.local_bob !! "bob" =
    Some (mkProfile "bob" "bob" (Some "hi") (Some "bob@example.com")) /\
  (let '(st', e) := Local.step (Local.LSignUp "eve@example.com" (Some "bob") None)
                      Examples.local_bob in
   e = None /\
   Local.ls_currentUser st' = Some (mkUser "bob" (Some "eve@example.com")) /\
   Local.ls_profiles st' !! "bob" =
     Some (mkProfile "bob" "bob" (Some "") (Some "eve@example.com"))).
Proof. vm_compute. repeat split. Qed.

(** C7: the local layer returns all 51 posts, more than the remote page of 50. *)
Lemma local_listPosts_unbounded :
  Local.clock_from 0 Examples.many_posts /\
  List.length (Local.listPosts (Local.run Examples.many_posts Local.init)) = 51.
Proof. split; [simpl; lia | vm_compute; reflexivity]. Qed.

(** C8: a profile that is not found is not cached: two [getProfile "x"]
    calls both query the table. *)
Lemma missing_profile_not_cached :
  Auth.getProfile "x" (Auth.getProfile "x" Examples.layer0 (Auth.mkAuthDB [] ∅ None [])).2
    (Auth.mkAuthDB [] ∅ None []) =
  (None, Auth.mkLayer ∅ ["x"; "x"]).
Proof. vm_compute. reflexivity. Qed.

(** C9: the local layer reports [isAdmin] with no admin email configured
    and nobody signed in. *)
Lemma local_layer_isAdmin_without_admin :
  layer_isAdmin (mkEnv None None None) None = true.
Proof. reflexivity. Qed.

(* ===================================================================== *)
(** ** Further properties of the code *)
(* ===================================================================== *)

(** *** [String.prototype.trim] *)

Lemma trim_start_units_spec (s : string) :
  list_ascii_of_string (JS.trim_start s) = trim_start_units (list_ascii_of_string s).
Proof.
  induction s as [|c s IH]; [reflexivity|]. simpl.
  destruct (JS.is_space c); [exact IH | reflexivity].
Qed.

Lemma trim_units (s : string) :
  list_ascii_of_string (JS.trim s) =
  rev (trim_start_units (rev (trim_start_units (list_ascii_of_string s)))).
Proof.
  unfold JS.trim.
  rewrite list_ascii_of_string_of_list_ascii, trim_start_units_spec,
    list_ascii_of_string_of_list_ascii, trim_start_units_spec.
  reflexivity.
Qed.

Lemma trim_start_units_idem (l : list ascii) :
  trim_start_units (trim_start_units l) = trim_start_units l.
Proof.
  induction l as [|c l IH]; [reflexivity|]. simpl.
  destruct (JS.is_space c) eqn:E; [exact IH|]. simpl. rewrite E. reflexivity.
Qed.

Lemma trim_start_units_head (l : list ascii) :
  trim_start_units l = [] \/
  exists c r, trim_start_units l = c :: r /\ JS.is_space c = false.
Proof.
  induction l as [|c l IH]; [left; reflexivity|]. simpl.
  destruct (JS.is_space c) eqn:E; [exact IH|]. right. eauto.
Qed.

Lemma trim_start_units_snoc (l : list ascii) (c : ascii) :
  JS.is_space c = false ->
  trim_start_units (l ++ [c]) = (trim_start_units l ++ [c])%list.
Proof.
  intros Hc. induction l as [|a l IH]; simpl.
  - rewrite Hc. reflexivity.
  - destruct (JS.is_space a); [exact IH | reflexivity].
Qed.

Lemma string_of_units_inj (s t : string) :
  list_ascii_of_string s = list_ascii_of_string t -> s = t.
Proof.
  intros H. rewrite <- (string_of_list_ascii_of_string s),
    <- (string_of_list_ascii_of_string t), H. reflexivity.
Qed.

(** The trimmed string starts with no white space. *)
Lemma trim_start_trim (s : string) : JS.trim_start (JS.trim s) = JS.trim s.
Proof.
  apply string_of_units_inj. rewrite trim_start_units_spec, trim_units.
  destruct (trim_start_units_head (list_ascii_of_string s)) as [-> | (c & r & -> & Hc)].
  - reflexivity.
  - simpl. rewrite trim_start_units_snoc by exact Hc.
    rewrite rev_app_distr. simpl. rewrite Hc. reflexivity.
Qed.

Lemma trim_trim (s : string) : JS.trim (JS.trim s) = JS.trim s.
Proof.
  apply string_of_units_inj.
  rewrite (trim_units (JS.trim s)), <- trim_start_units_spec, trim_start_trim,
    (trim_units s), rev_involutive, trim_start_units_idem.
  reflexivity.
Qed.

(** *** Routing *)

(** [parseHash] always yields one of the four routes, and each route is
    reached from ["#/route"], ["#route"] and ["route"]. *)
Theorem parseHash_routes :
  (forall hash, Route.parseHash hash ∈ Route.routes) /\
  (forall r, r ∈ Route.routes ->
     Route.parseHash ("#/" ++ r) = r /\ Route.parseHash ("#" ++ r) = r /\
     Route.parseHash r = r).
Proof.
  split.
  - intros hash. unfold Route.parseHash.
    destruct (JS.truthy (Route.strip_hash hash)); cbn [negb];
      [|unfold Route.routes; set_solver].
    destruct (existsb (String.eqb (Route.strip_hash hash)) Route.routes) eqn:E;
      [|unfold Route.routes; set_solver].
    apply existsb_exists in E as [r [Hr Heq]]. apply String.eqb_eq in Heq.
    rewrite Heq. apply list_elem_of_In. exact Hr.
  - intros r Hr. unfold Route.routes in Hr.
    repeat (apply elem_of_cons in Hr as [-> | Hr]; [vm_compute; tauto|]).
    by apply elem_of_nil in Hr.
Qed.

(** *** [timeAgo] *)

(** The relative text is replaced by the date exactly when the timestamp
    is at least seven days (604800000 ms) old. *)
Theorem timeAgo_date_after_a_week (now ts : Z) :
  (exists d, Feed.timeAgo now ts = Feed.AgoDate d) <-> (604800000 <= now - ts)%Z.
Proof.
  unfold Feed.timeAgo.
  pose proof (Z.div_mod (now - ts) 1000 ltac:(lia)) as D1.
  pose proof (Z.mod_pos_bound (now - ts) 1000 ltac:(lia)) as B1.
  set (s := ((now - ts) / 1000)%Z) in *.
  pose proof (Z.div_mod s 60 ltac:(lia)) as D2.
  pose proof (Z.mod_pos_bound s 60 ltac:(lia)) as B2.
  set (m := (s / 60)%Z) in *.
  pose proof (Z.div_mod m 60 ltac:(lia)) as D3.
  pose proof (Z.mod_pos_bound m 60 ltac:(lia)) as B3.
  set (h := (m / 60)%Z) in *.
  pose proof (Z.div_mod h 24 ltac:(lia)) as D4.
  pose proof (Z.mod_pos_bound h 24 ltac:(lia)) as B4.
  set (d := (h / 24)%Z) in *.
  destruct (Z.ltb_spec s 60); [split; [intros [? ?]; discriminate | lia]|].
  destruct (Z.ltb_spec m 60); [split; [intros [? ?]; discriminate | lia]|].
  destruct (Z.ltb_spec h 24); [split; [intros [? ?]; discriminate | lia]|].
  destruct (Z.ltb_spec d 7); [split; [intros [? ?]; discriminate | lia]|].
  split; [intros _; lia | eauto].
Qed.

(** A timestamp in the future (clock skew) is shown as a negative number
    of seconds: [Math.floor] rounds down, so even 1 ms ahead gives "-1s". *)
Theorem timeAgo_future (now ts : Z) (Hfuture : (now < ts)%Z) :
  exists p : positive,
    ((now - ts) / 1000)%Z = Z.neg p /\
    Feed.timeAgo now ts = Feed.AgoText ("-" ++ pretty p ++ "s").
Proof.
  assert (Hneg : ((now - ts) / 1000 < 0)%Z) by (apply Z.div_lt_upper_bound; lia).
  unfold Feed.timeAgo.
  destruct ((now - ts) / 1000)%Z as [|p|p] eqn:E; try lia.
  exists p. split; [reflexivity|]. reflexivity.
Qed.

(** *** [AdminPanel] and [deleteAllPostsByUser] *)

Lemma JSSet_of_list_NoDup (l : list string) : NoDup (JSSet.of_list l).
Proof.
  unfold JSSet.of_list.
  cut (forall acc, NoDup acc -> NoDup (fold_left (fun acc x =>
         if bool_decide (x ∈ acc) then acc else (acc ++ [x])%list) l acc)).
  { intros H. apply H. constructor. }
  induction l as [|y l IH]; intros acc Hacc; simpl; [exact Hacc|].
  apply IH. case_bool_decide as Hy; [exact Hacc|].
  apply NoDup_app. split; [exact Hacc|]. split; [|apply NoDup_singleton].
  intros x Hx Hx'. apply list_elem_of_singleton in Hx'. subst. contradiction.
Qed.

(** The admin panel lists each author once. After the local
    [deleteAllPostsByUser userId] it lists the same authors except
    [userId]. *)
Theorem admin_users_after_delete_all (st : Local.LocalState) (userId : string) :
  NoDup (Feed.admin_users (Local.ls_posts st)) /\
  (forall x, x ∈ Feed.admin_users (Local.ls_posts st) <->
             exists p, p ∈ Local.ls_posts st /\ Local.lp_userId p = x) /\
  (let '(st', e) := Local.step (Local.LDeleteAllPostsByUser userId) st in
   e = None /\
   forall x, x ∈ Feed.admin_users (Local.ls_posts st') <->
             x ∈ Feed.admin_users (Local.ls_posts st) /\ x <> userId).
Proof.
  unfold Feed.admin_users.
  split; [apply JSSet_of_list_NoDup|].
  split.
  - intros x. rewrite JSSet_of_list_elem, list_elem_of_In, in_map_iff.
    setoid_rewrite <- list_elem_of_In. split; intros [p [H1 H2]]; eauto.
  - simpl. split; [reflexivity|]. intros x.
    rewrite !JSSet_of_list_elem, !list_elem_of_In, !in_map_iff.
    setoid_rewrite <- list_elem_of_In. setoid_rewrite list_elem_of_filter.
    split.
    + intros [p [Hx [Hu Hp]]]. subst. eauto.
    + intros [[p [Hx Hp]] Hne]. subst. eauto.
Qed.

(** *** [NewPost]: the composer's file list *)

Lemma remove_index_spec (idx : nat) (l : list File) (start : nat) :
  map snd (filter (fun p : nat * File => p.1 ≠ idx) (zip (seq start (List.length l)) l)) =
  if bool_decide (start <= idx)%nat
  then (take (idx - start) l ++ drop (S (idx - start)) l)%list
  else l.
Proof.
  revert start. induction l as [|x l IH]; intros start.
  - simpl. case_bool_decide; [rewrite take_nil|]; reflexivity.
  - cbn [List.length seq zip zip_with]. rewrite filter_cons. simpl fst.
    destruct (decide (start ≠ idx)) as [Hne|Hne]; simpl; rewrite (IH (S start)).
    + case_bool_decide as H1; case_bool_decide as H2; try lia.
      * replace (idx - start) with (S (idx - S start)) by lia. reflexivity.
      * reflexivity.
    + assert (start = idx) as -> by lia. rewrite (bool_decide_true (idx <= idx)), (bool_decide_false (S idx <= idx)) by lia.
      rewrite Nat.sub_diag. reflexivity.
Qed.

(** [removeAt idx] drops the file at position [idx] and keeps the others
    in order; an index past the end changes nothing. *)
Theorem removeAt_spec (idx : nat) (files : list File) :
  Files.removeAt idx files = (take idx files ++ drop (S idx) files)%list /\
  (idx < List.length files -> List.length (Files.removeAt idx files) = List.length files - 1) /\
  (List.length files <= idx -> Files.removeAt idx files = files).
Proof.
  assert (E : Files.removeAt idx files = (take idx files ++ drop (S idx) files)%list).
  { unfold Files.removeAt. rewrite remove_index_spec, bool_decide_true by lia.
    rewrite Nat.sub_0_r. reflexivity. }
  split; [exact E|]. rewrite E. split.
  - intros H. rewrite length_app, length_take, length_drop. lia.
  - intros H. rewrite take_ge, drop_ge by lia. apply app_nil_r.
Qed.

(** While at most 9 files are chosen, [addFiles] keeps them and appends
    the picked image and video files in order; picked files are dropped
    only beyond the ninth. *)
Theorem addFiles_appends (picked : option (list File)) (prev : list File)
    (Hprev : List.length prev <= 9) :
  exists extra,
    Files.addFiles picked prev = (prev ++ extra)%list /\
    extra `prefix_of` filter (fun f => Files.is_media f = true) (default [] picked) /\
    List.length (prev ++ extra) <= 9 /\
    (List.length (prev ++ extra) < 9 ->
     extra = filter (fun f => Files.is_media f = true) (default [] picked)).
Proof.
  unfold Files.addFiles.
  destruct picked as [l|]; simpl.
  2:{ exists []. rewrite app_nil_r. split; [reflexivity|].
      split; [apply prefix_nil|]. split; [lia|]. reflexivity. }
  destruct (filter (fun f => Files.is_media f = true) l) as [|a arr] eqn:E.
  { exists []. rewrite app_nil_r. split; [reflexivity|].
    split; [apply prefix_nil|]. split; [lia|]. reflexivity. }
  exists (take (9 - List.length prev) (a :: arr)).
  rewrite take_app, take_ge by lia.
  split; [reflexivity|]. split; [apply prefix_take|].
  rewrite length_app, length_take. split; [lia|].
  intros H. apply take_ge. lia.
Qed.

Lemma map_snd_filter_zip_sub (P : nat * File -> Prop) `{!forall p, Decision (P p)}
    (ks : list nat) (l : list File) :
  List.length (map snd (filter P (zip ks l))) <= List.length l /\
  (forall x, x ∈ map snd (filter P (zip ks l)) -> x ∈ l).
Proof.
  revert ks. induction l as [|y l IH]; intros [|k ks]; simpl.
  - split; [lia|]. intros x Hx. inversion Hx.
  - split; [lia|]. intros x Hx. inversion Hx.
  - split; [lia|]. intros x Hx. inversion Hx.
  - rewrite filter_cons. destruct (IH ks) as [IH1 IH2].
    case_decide; simpl.
    + split; [lia|]. intros x Hx. apply elem_of_cons in Hx as [->|Hx];
        [left | right; auto].
    + split; [lia|]. intros x Hx. right. auto.
Qed.

Lemma cropped_file_media (f : File) (url : string) :
  Files.is_media (Files.cropped_file f url) = true.
Proof. reflexivity. Qed.

Lemma composer_step_inv (op : Files.ComposerOp) (files : list File) :
  List.length files <= 9 -> Forall (fun f => Files.is_media f = true) files ->
  List.length (Files.composer_step op files) <= 9 /\
  Forall (fun f => Files.is_media f = true) (Files.composer_step op files).
Proof.
  intros Hlen Hall. destruct op as [picked | idx | k url]; simpl.
  - unfold Files.addFiles. destruct picked as [l|]; [|auto].
    destruct (filter (fun f => Files.is_media f = true) l) as [|a arr] eqn:E; [auto|].
    split.
    + rewrite length_take. lia.
    + apply Forall_take, Forall_app. split; [exact Hall|].
      rewrite <- E. apply Forall_forall. intros x Hx.
      apply list_elem_of_filter in Hx. tauto.
  - unfold Files.removeAt.
    destruct (map_snd_filter_zip_sub (fun p : nat * File => p.1 ≠ idx)
                (seq 0 (List.length files)) files) as [H1 H2].
    split; [lia|]. apply Forall_forall. intros x Hx.
    apply (Forall_forall _ files) with x in Hall; auto.
  - destruct (files !! k) as [f|] eqn:Ef; [|auto].
    destruct (starts_with "image" (file_type f)); [|auto].
    unfold Files.saveCrop. rewrite length_imap. split; [exact Hlen|].
    apply Forall_forall. intros x Hx.
    apply elem_of_lookup_imap in Hx as (i & y & -> & Hi).
    case_bool_decide; [apply cropped_file_media|].
    apply (Forall_forall _ files) with y in Hall; [exact Hall|].
    eapply list_elem_of_lookup_2. exact Hi.
Qed.

Lemma uploads_cons (e : Composer.Effect) (l : list Composer.Effect) :
  Files.uploads (e :: l) = ((if Files.is_upload e then 1 else 0) + Files.uploads l)%nat.
Proof.
  unfold Files.uploads. rewrite filter_cons.
  destruct (Files.is_upload e); case_decide; try congruence; reflexivity.
Qed.

Lemma uploads_createPost (signed_in : bool) (files : list File) (caption : string) :
  Files.uploads (Composer.createPost_effects signed_in files caption) =
  if signed_in then List.length files else 0.
Proof.
  assert (H : forall start fs rest,
    Files.uploads (map (fun '(i, f) => Composer.EUpload i f)
                       (zip (seq start (List.length fs)) fs) ++ rest)%list =
    (List.length fs + Files.uploads rest)%nat).
  { intros start fs. revert start.
    induction fs as [|f fs IH]; intros start rest; [reflexivity|].
    cbn [map zip zip_with seq List.length app]. rewrite uploads_cons, IH. reflexivity. }
  unfold Composer.createPost_effects. rewrite uploads_cons.
  destruct signed_in; [|reflexivity].
  rewrite H. cbn [Files.is_upload]. rewrite Nat.add_0_l.
  assert (E : Files.uploads [Composer.EInsertPost caption (map Local.media_type files)] = 0)
    by reflexivity.
  rewrite E. lia.
Qed.

(** Whatever sequence of picks, drops, removals and crops the user makes,
    the composer holds at most 9 files, all of them images or videos, so
    pressing Share issues at most 9 storage uploads. *)
Theorem composer_at_most_nine (ops : list Files.ComposerOp) :
  List.length (Files.composer_run ops) <= 9 /\
  Forall (fun f => Files.is_media f = true) (Files.composer_run ops) /\
  (forall signed_in caption,
     Files.uploads (Composer.share_effects true signed_in (Files.composer_run ops) caption) <= 9).
Proof.
  assert (Hinv : forall files, List.length files <= 9 ->
            Forall (fun f => Files.is_media f = true) files ->
            List.length (fold_left (fun fs op => Files.composer_step op fs) ops files) <= 9 /\
            Forall (fun f => Files.is_media f = true)
                   (fold_left (fun fs op => Files.composer_step op fs) ops files)).
  { induction ops as [|op ops IH]; intros files Hl Ha; simpl; [auto|].
    destruct (composer_step_inv op files Hl Ha). apply IH; assumption. }
  destruct (Hinv [] ltac:(simpl; lia) (List.Forall_nil _)) as [H1 H2].
  unfold Files.composer_run. split; [exact H1|]. split; [exact H2|].
  intros signed_in caption. unfold Composer.share_effects.
  destruct (Composer.submit _ caption) as [[fs c]|] eqn:E.
  - unfold Composer.submit in E.
    destruct (_ || _); [|discriminate]. injection E as <- <-.
    rewrite uploads_createPost. destruct signed_in; lia.
  - unfold Files.uploads. simpl. lia.
Qed.

(** *** [ImageCropperModal.doSave]: the name of the cropped file *)

Lemma units_app (a b : string) :
  list_ascii_of_string (a ++ b) = (list_ascii_of_string a ++ list_ascii_of_string b)%list.
Proof. induction a as [|c a IH]; simpl; [reflexivity | rewrite IH; reflexivity]. Qed.

Lemma find_dot_none (l : list ascii) :
  "."%char ∉ l -> list_find (fun c => c = "."%char) (rev l) = None.
Proof.
  intros H. apply list_find_None, Forall_forall. intros x Hx ->.
  apply H. rewrite list_elem_of_In in Hx |- *. apply in_rev. exact Hx.
Qed.

Lemma drop_extension_ext (stem ext : string) :
  ext <> "" -> "."%char ∉ list_ascii_of_string ext ->
  Files.drop_extension (stem ++ "." ++ ext) = stem.
Proof.
  intros Hext Hdot. unfold Files.drop_extension.
  assert (E : rev (list_ascii_of_string (stem ++ "." ++ ext)) =
              (rev (list_ascii_of_string ext) ++ "."%char :: rev (list_ascii_of_string stem))%list).
  { rewrite units_app. change (list_ascii_of_string ("." ++ ext))
      with ("."%char :: list_ascii_of_string ext).
    rewrite rev_app_distr. simpl. rewrite <- app_assoc. reflexivity. }
  rewrite E, list_find_app_r by (apply find_dot_none; exact Hdot).
  cbn [list_find]. rewrite decide_True by reflexivity. cbn [fmap option_fmap option_map prod_map].
  assert (Hlen : 0 < List.length (rev (list_ascii_of_string ext))).
  { rewrite length_rev. destruct ext; [congruence | simpl; lia]. }
  rewrite bool_decide_true by lia.
  cbn [fst].
  replace (rev (list_ascii_of_string ext) ++ "."%char :: rev (list_ascii_of_string stem))%list
    with ((rev (list_ascii_of_string ext) ++ ["."%char]) ++ rev (list_ascii_of_string stem))%list
    by (rewrite <- app_assoc; reflexivity).
  rewrite (drop_app_length' _ _ (S (0 + List.length (rev (list_ascii_of_string ext)))))
    by (rewrite length_app; simpl; lia).
  rewrite rev_involutive, string_of_list_ascii_of_string. reflexivity.
Qed.

Lemma drop_extension_nodot (name : string) :
  "."%char ∉ list_ascii_of_string name -> Files.drop_extension name = name.
Proof.
  intros Hdot. unfold Files.drop_extension. rewrite find_dot_none by exact Hdot.
  reflexivity.
Qed.

(** The cropped copy is a JPEG named after the source file: its last
    extension is replaced by "-cropped.jpg", a name without a dot keeps
    all of it, and an empty stem (as in ".png") becomes "image". *)
Theorem cropped_file_name (source : File) (url : string) :
  (forall stem ext,
     file_name source = stem ++ "." ++ ext -> ext <> "" ->
     "."%char ∉ list_ascii_of_string ext ->
     Files.cropped_file source url =
     mkFile ((if JS.truthy stem then stem else "image") ++ "-cropped.jpg") "image/jpeg" url) /\
  ("."%char ∉ list_ascii_of_string (file_name source) -> file_name source <> "" ->
   Files.cropped_file source url = mkFile (file_name source ++ "-cropped.jpg") "image/jpeg" url).
Proof.
  split.
  - intros stem ext Hname Hext Hdot.
    unfold Files.cropped_file. rewrite Hname, drop_extension_ext by assumption.
    reflexivity.
  - intros Hdot Hne. unfold Files.cropped_file. rewrite drop_extension_nodot by exact Hdot.
    destruct (file_name source); [congruence | reflexivity].
Qed.

(** *** [createSupabaseLayer.toggleReactPost]: what the write touches *)

Lemma JSSet_delete_NoDup (x : string) (s : list string) :
  NoDup s -> NoDup (JSSet.delete x s).
Proof. intros H. unfold JSSet.delete. apply NoDup_filter. exact H. Qed.

Lemma JSSet_add_NoDup (x : string) (s : list string) :
  NoDup s -> NoDup (JSSet.add x s).
Proof.
  intros H. unfold JSSet.add, JSSet.has. case_bool_decide as Hx; [exact H|].
  apply NoDup_app. split; [exact H|]. split; [|apply NoDup_singleton].
  intros y Hy Hy'. apply list_elem_of_singleton in Hy'. subst. contradiction.
Qed.

Lemma toggle_sets_NoDup (type : ReactType) (userId : string) (a b : list string) :
  NoDup (fst (Toggle.toggle_sets type userId a b)) /\
  NoDup (snd (Toggle.toggle_sets type userId a b)).
Proof.
  pose proof (JSSet_of_list_NoDup a). pose proof (JSSet_of_list_NoDup b).
  unfold Toggle.toggle_sets.
  destruct type; destruct (JSSet.has _ userId); simpl;
    auto using JSSet_delete_NoDup, JSSet_add_NoDup.
Qed.

(** A successful toggle rewrites only the two reaction arrays of the
    toggled post: the other posts, the session and the post's other
    columns stay as they were. With a signed-in user the arrays written
    back hold no duplicates, even if the stored ones did. *)
Theorem toggleReactPost_frame_dedup (postId : string) (type : ReactType) (db db' : Toggle.DB)
    (Hok : Toggle.toggleReactPost postId type db = Ok db') :
  Toggle.db_session db' = Toggle.db_session db /\
  (forall q, q <> postId -> Toggle.db_posts db' !! q = Toggle.db_posts db !! q) /\
  (exists row row',
     Toggle.db_posts db !! postId = Some row /\ Toggle.db_posts db' !! postId = Some row' /\
     pr_id row' = pr_id row /\ pr_user_id row' = pr_user_id row /\
     pr_caption row' = pr_caption row /\ pr_created_at row' = pr_created_at row /\
     pr_edited row' = pr_edited row) /\
  (Toggle.db_session db <> None ->
   NoDup (Toggle.up_set db' postId) /\ NoDup (Toggle.down_set db' postId)).
Proof.
  unfold Toggle.toggleReactPost in Hok.
  destruct (Toggle.db_posts db !! postId) as [row|] eqn:Hrow; [|discriminate].
  destruct (Toggle.db_session db) as [u|] eqn:Hs.
  - pose proof (toggle_sets_NoDup type (user_id u)
                  (default [] (pr_likes_up row)) (default [] (pr_likes_down row))) as HN.
    destruct (Toggle.toggle_sets _ _ _ _) as [up down]. simpl in HN.
    injection Hok as <-. simpl.
    split; [reflexivity|]. split.
    { intros q Hq. rewrite lookup_insert_ne by congruence. reflexivity. }
    split.
    { eexists _, _. rewrite lookup_insert_eq. split; [reflexivity|]. split; [reflexivity|].
      simpl. repeat split. }
    intros _. unfold Toggle.up_set, Toggle.down_set. simpl. rewrite lookup_insert_eq.
    simpl. exact HN.
  - injection Hok as <-. rewrite Hs. split; [reflexivity|]. split; [reflexivity|].
    split; [|congruence]. exists row, row. rewrite Hrow. repeat split.
Qed.

(** *** Comments written by [addComment] and [addReply], read back by
    [listPosts] *)

Lemma match_reply_marker (g rest : string) :
  g <> "" -> "]"%char ∉ list_ascii_of_string g ->
  ReplyPrefix.match_reply ("[reply:" ++ g ++ "]" ++ rest) = Some (g, JS.trim_start rest).
Proof.
  intros Hg Hbr. unfold ReplyPrefix.match_reply. rewrite strip_prefix_app.
  change ("]" ++ rest) with (String "]" rest).
  rewrite split_at_bracket_app by exact Hbr. rewrite truthy_nonempty by exact Hg.
  reflexivity.
Qed.

Lemma match_reply_unmarked (s : string) :
  starts_with "[reply:" s = false -> ReplyPrefix.match_reply s = None.
Proof.
  unfold starts_with, ReplyPrefix.match_reply.
  destruct (ReplyPrefix.strip_prefix "[reply:" s); [discriminate | reflexivity].
Qed.

(** [addComment] appends one row with no [parent_id]. [listPosts] reads
    its text back unchanged unless it starts with "[reply:"; a text of the
    form "[reply:g]rest" is read as a reply to [g], with the spaces after
    the marker removed. *)
Theorem addComment_read_back (fresh_id : string) (now : Z) (postId content : string)
    (db db' : Remote.Backend)
    (Hadd : RemoteWrites.addComment fresh_id now postId content db = Ok db') :
  exists row,
    Remote.be_comments db' = (Remote.be_comments db ++ [row])%list /\
    cr_id row = fresh_id /\ cr_post_id row = postId /\ cr_parent_id row = None /\
    (starts_with "[reply:" content = false ->
     n_content (ListPosts.decode_row row) = Some content /\
     n_parentId (ListPosts.decode_row row) = None) /\
    (forall g rest, content = "[reply:" ++ g ++ "]" ++ rest -> g <> "" ->
     "]"%char ∉ list_ascii_of_string g ->
     n_content (ListPosts.decode_row row) = Some (JS.trim_start rest) /\
     n_parentId (ListPosts.decode_row row) = Some g).
Proof.
  unfold RemoteWrites.addComment in Hadd.
  destruct (Remote.be_session db) as [u|]; [|discriminate].
  injection Hadd as <-. eexists. split; [reflexivity|].
  split; [reflexivity|]. split; [reflexivity|]. split; [reflexivity|].
  split.
  - intros Hs. unfold ListPosts.decode_row. cbn [cr_content cr_parent_id].
    rewrite match_reply_unmarked by exact Hs. split; reflexivity.
  - intros g rest -> Hg Hbr. unfold ListPosts.decode_row, ReplyPrefix.strip_reply.
    cbn [cr_content cr_parent_id]. rewrite match_reply_marker by assumption.
    split; reflexivity.
Qed.

(** A reply typed in the reply box of [CommentBlock] is trimmed and sent
    only when non-blank; [addReply] stores it behind the "[reply:id] "
    marker, and [listPosts] reads back exactly the trimmed text, as a
    reply to the comment, with or without a [parent_id] column. *)
Theorem reply_box_read_back (reply text fresh_id : string) (now : Z)
    (postId commentId : string) (db db' : Remote.Backend)
    (Hform : Feed.submitReply true true reply = Some text)
    (Hid : commentId <> "") (Hbr : "]"%char ∉ list_ascii_of_string commentId)
    (Hadd : Remote.addReply fresh_id now postId commentId text db = Ok db') :
  text = JS.trim reply /\ text <> "" /\
  exists row,
    Remote.be_comments db' = (Remote.be_comments db ++ [row])%list /\
    cr_id row = fresh_id /\ cr_post_id row = postId /\
    n_content (ListPosts.decode_row row) = Some (JS.trim reply) /\
    n_parentId (ListPosts.decode_row row) = Some commentId.
Proof.
  unfold Feed.submitReply in Hform. simpl in Hform.
  destruct (JS.truthy (JS.trim reply)) eqn:T; [|discriminate].
  injection Hform as <-.
  split; [reflexivity|]. split; [intros E; rewrite E in T; discriminate|].
  unfold Remote.addReply in Hadd.
  destruct (Remote.be_session db) as [u|]; [|discriminate].
  injection Hadd as <-. eexists. split; [reflexivity|].
  split; [reflexivity|]. split; [reflexivity|].
  unfold ListPosts.decode_row, ReplyPrefix.strip_reply. cbn [cr_content cr_parent_id].
  rewrite match_reply_text by (try apply trim_start_trim; assumption).
  split; [reflexivity|].
  destruct (Remote.be_parent_column db); simpl; try rewrite truthy_nonempty by exact Hid;
    reflexivity.
Qed.

(** *** [listPosts]: which comments are loaded *)

Lemma map_set_elem (k : string) (v : Node) (m : list (string * Node)) (kv : string * Node) :
  kv ∈ ListPosts.map_set k v m -> kv = (k, v) \/ kv ∈ m.
Proof.
  unfold ListPosts.map_set. case_bool_decide.
  - intros Hkv. apply list_elem_of_In, in_map_iff in Hkv as [kv' [Hkv Hin]].
    destruct (bool_decide (kv'.1 = k)); [left; congruence|].
    right. subst. apply list_elem_of_In. exact Hin.
  - rewrite elem_of_app, list_elem_of_singleton. tauto.
Qed.

Lemma build_byId_elem (rows : list CommentRow) (kv : string * Node) :
  kv ∈ ListPosts.build_byId rows -> exists row, row ∈ rows /\ kv.2 = ListPosts.decode_row row.
Proof.
  unfold ListPosts.build_byId.
  cut (forall acc, kv ∈ fold_left (fun m row =>
         ListPosts.map_set (n_id (ListPosts.decode_row row)) (ListPosts.decode_row row) m) rows acc ->
       kv ∈ acc \/ exists row, row ∈ rows /\ kv.2 = ListPosts.decode_row row).
  { intros H Hkv. destruct (H [] Hkv) as [Hnil|Hex]; [inversion Hnil | exact Hex]. }
  induction rows as [|r rows IH]; intros acc Hkv; simpl in Hkv; [left; exact Hkv|].
  destruct (IH _ Hkv) as [Hacc|[row [Hrow Heq]]].
  - apply map_set_elem in Hacc as [->|Hacc]; [|left; exact Hacc].
    right. exists r. split; [left|reflexivity].
  - right. exists row. split; [right; exact Hrow | exact Heq].
Qed.

(** Every comment node [listPosts] returns comes from a row of the
    [comments] table and belongs to one of the posts of the returned page,
    which holds at most 50 posts: comments of older posts are not loaded. *)
Theorem listPosts_comments_of_page (db : Remote.Backend) (kv : string * Node)
    (Hkv : kv ∈ Remote.lr_byId (Remote.listPosts db)) :
  List.length (Remote.lr_posts (Remote.listPosts db)) <= 50 /\
  n_postId kv.2 ∈ map ListPosts.op_id (Remote.lr_posts (Remote.listPosts db)) /\
  exists row, row ∈ Remote.be_comments db /\ kv.2 = ListPosts.decode_row row.
Proof.
  split; [exact (proj1 (remote_listPosts_order db))|].
  unfold Remote.listPosts in *.
  destruct (firstn 50 (PostSort.sort (Remote.be_posts db))) as [|p ps] eqn:E;
    [inversion Hkv|].
  simpl in Hkv |- *.
  apply build_byId_elem in Hkv as [row [Hrow ->]].
  assert (Hin : row ∈ filter (fun r => cr_post_id r ∈ map pr_id (p :: ps)) (Remote.be_comments db)).
  { rewrite list_elem_of_In in Hrow |- *. eapply Permutation_in; [|exact Hrow].
    symmetry. apply CommentSort.Permuted_sort. }
  apply list_elem_of_filter in Hin as [Hpost Hrow'].
  split; [|eauto].
  rewrite map_map. exact Hpost.
Qed.

(** *** Profiles: the cache of [_getProfile] and [updateProfile] *)

Lemma bio_default (b : string) : default "" (JS.or_str (Some b) (Some "")) = b.
Proof. destruct b; reflexivity. Qed.

Lemma username_free (db : Auth.AuthDB) (id name : string) :
  (forall k p, Auth.ad_profiles db !! k = Some p -> pf_id p <> id -> pf_username p <> name) ->
  Auth.username_taken_by_other db id name = false.
Proof.
  intros Hfree. unfold Auth.username_taken_by_other.
  destruct (existsb _ _) eqn:E; [|reflexivity].
  apply existsb_exists in E as [p [Hp Hb]].
  apply in_map_iff in Hp as [[k p'] [Hkp Hin]]. simpl in Hkp. subst p'.
  apply list_elem_of_In, elem_of_map_to_list in Hin.
  apply andb_prop in Hb as [Hn Hi]. apply String.eqb_eq in Hn.
  apply negb_true_iff, String.eqb_neq in Hi.
  exfalso. exact (Hfree k p Hin Hi Hn).
Qed.

(** If every cached profile agrees with the [profiles] table, then
    [getProfile] returns what the table holds, and neither [getProfile]
    nor [updateProfile] (successful or not) breaks that agreement. *)
Theorem profile_cache_coherent (l : Auth.Layer) (db : Auth.AuthDB)
    (Hcoh : forall k p, Auth.rl_cache l !! k = Some p -> Auth.ad_profiles db !! k = Some p) :
  (forall id,
     (Auth.getProfile id l db).1 = Auth.ad_profiles db !! id /\
     (forall k p, Auth.rl_cache (Auth.getProfile id l db).2 !! k = Some p ->
                  Auth.ad_profiles db !! k = Some p)) /\
  (forall username bio,
     let '(l', db', _) := Auth.updateProfile username bio l db in
     forall k p, Auth.rl_cache l' !! k = Some p -> Auth.ad_profiles db' !! k = Some p).
Proof.
  split.
  - intros id. unfold Auth.getProfile.
    destruct (Auth.rl_cache l !! id) as [p|] eqn:Hc.
    + simpl. split; [symmetry; apply Hcoh; exact Hc | exact Hcoh].
    + simpl. split; [reflexivity|].
      destruct (Auth.ad_profiles db !! id) as [q|] eqn:Hq; simpl; [|exact Hcoh].
      intros k p. rewrite lookup_insert_Some.
      intros [[<- <-] | [_ Hk]]; [exact Hq | apply Hcoh; exact Hk].
  - intros username bio. unfold Auth.updateProfile.
    destruct (Auth.ad_session db) as [u|]; [|exact Hcoh].
    unfold Auth.upsert_profile.
    destruct (Auth.username_taken_by_other _ _ _); [exact Hcoh|].
    simpl. intros k p. rewrite lookup_delete_Some. intros [Hk Hc].
    rewrite lookup_insert_ne by congruence. apply Hcoh. exact Hc.
Qed.

(** Saving [ProfileEditor] with a non-blank username stores the trimmed
    username (non-empty, with no surrounding white space) and the bio as
    typed, when no other profile has that username; the signed-in user's
    cache entry is dropped, so the next [getProfile] shows the new values. *)
Theorem profile_editor_save (username bio name b : string) (l : Auth.Layer)
    (db : Auth.AuthDB) (u : User)
    (Hsubmit : Feed.profile_submit username bio = inr (name, b))
    (Hsession : Auth.ad_session db = Some u)
    (Hfree : forall k p, Auth.ad_profiles db !! k = Some p -> pf_id p <> user_id u ->
                         pf_username p <> name) :
  name = JS.trim username /\ name <> "" /\ JS.trim name = name /\ b = bio /\
  (let '(l', db', e) := Auth.updateProfile name (Some b) l db in
   e = None /\
   Auth.ad_profiles db' =
     <[user_id u := mkProfile (user_id u) name (Some bio) (user_email u)]> (Auth.ad_profiles db) /\
   (Auth.getProfile (user_id u) l' db').1 =
     Some (mkProfile (user_id u) name (Some bio) (user_email u))).
Proof.
  unfold Feed.profile_submit in Hsubmit.
  destruct (JS.truthy (JS.trim username)) eqn:T; [|discriminate].
  injection Hsubmit as <- <-.
  split; [reflexivity|]. split; [intros E; rewrite E in T; discriminate|].
  split; [apply trim_trim|]. split; [reflexivity|].
  unfold Auth.updateProfile. rewrite Hsession. unfold Auth.upsert_profile.
  cbn [pf_id pf_username]. rewrite username_free by exact Hfree.
  rewrite bio_default. simpl. split; [reflexivity|]. split; [reflexivity|].
  unfold Auth.getProfile. simpl. rewrite lookup_delete_eq. simpl.
  rewrite lookup_insert_eq. reflexivity.
Qed.

(** [updateProfile] with a username that another profile already has
    fails with the backend's unique-key error and changes neither the
    [profiles] table nor the cache. *)
Theorem updateProfile_username_taken (name : string) (bio : option string) (l : Auth.Layer)
    (db : Auth.AuthDB) (u : User) (other : Profile)
    (Hsession : Auth.ad_session db = Some u)
    (Hother : Auth.ad_profiles db !! pf_id other = Some other)
    (Hname : pf_username other = name) (Hid : pf_id other <> user_id u) :
  Auth.updateProfile name bio l db =
  (l, db, Some (BackendError "duplicate key value violates unique constraint")).
Proof.
  unfold Auth.updateProfile. rewrite Hsession. unfold Auth.upsert_profile.
  cbn [pf_id pf_username]. subst name.
  rewrite (taken_by_other db other (user_id u) Hother Hid). reflexivity.
Qed.

(** *** Sign-in and sign-up through [LoginCard] and the toasts of
    [niceAuthError] *)

Lemma find_all_false {A} (f : A -> bool) (l : list A) :
  (forall x, In x l -> f x = false) -> find f l = None.
Proof.
  induction l as [|a l IH]; intros H; [reflexivity|]. simpl.
  rewrite (H a (or_introl eq_refl)). apply IH. intros x Hx. apply H. right. exact Hx.
Qed.

(** A username that no profile has gets the raw toast "Username not
    found"; a known email (typed, or found for the username) with a wrong
    password gets "Invalid email/username or password.". Nothing changes. *)
Theorem doSignIn_toasts (identifier password : string) (db : Auth.AuthDB) :
  (Auth.email_shaped identifier = false -> Auth.lookup_email db identifier = None ->
   AuthUI.doSignIn identifier password db = (db, Some "Username not found")) /\
  (forall email,
     (if Auth.email_shaped identifier then Some identifier
      else Auth.lookup_email db identifier) = Some email ->
     (forall a, a ∈ Auth.ad_accounts db -> Auth.acc_email a = email ->
                Auth.acc_password a <> password) ->
     AuthUI.doSignIn identifier password db = (db, Some "Invalid email/username or password.")).
Proof.
  split.
  - intros He Hl. unfold AuthUI.doSignIn, Auth.signIn. rewrite He, Hl. reflexivity.
  - intros email Hemail Hpw.
    assert (Hfind : find (fun a => String.eqb (Auth.acc_email a) email &&
                                   String.eqb (Auth.acc_password a) password)
                         (Auth.ad_accounts db) = None).
    { apply find_all_false. intros a Ha.
      destruct (String.eqb_spec (Auth.acc_email a) email) as [He|]; [|reflexivity].
      destruct (String.eqb_spec (Auth.acc_password a) password) as [Hp|]; [|reflexivity].
      exfalso. apply (Hpw a); [apply list_elem_of_In; exact Ha | exact He | exact Hp]. }
    unfold AuthUI.doSignIn, Auth.signIn.
    destruct (Auth.email_shaped identifier).
    + injection Hemail as <-. unfold Auth.auth_signInWithPassword. rewrite Hfind.
      reflexivity.
    + rewrite Hemail. unfold Auth.auth_signInWithPassword. rewrite Hfind. reflexivity.
Qed.

(** Signing up with an email that is already registered gets "Email
    already in use. Please sign in." and changes nothing; with a fresh
    email but a username another profile has, the toast is the backend's
    raw unique-key message, while the new account stays registered. *)
Theorem doSignUp_toasts (fresh_id : string) (autoconfirm : bool)
    (email password username bio : string) (db : Auth.AuthDB) :
  (email ∈ map Auth.acc_email (Auth.ad_accounts db) ->
   AuthUI.doSignUp fresh_id autoconfirm email password username bio db =
   (db, Some "Email already in use. Please sign in.")) /\
  (forall other,
     email ∉ map Auth.acc_email (Auth.ad_accounts db) ->
     Auth.ad_profiles db !! pf_id other = Some other -> pf_id other <> fresh_id ->
     pf_username other = username -> username <> "" ->
     let '(db', toast) := AuthUI.doSignUp fresh_id autoconfirm email password username bio db in
     toast = Some "duplicate key value violates unique constraint" /\
     Auth.ad_accounts db' = (Auth.ad_accounts db ++ [Auth.mkAccount fresh_id email password])%list /\
     Auth.ad_profiles db' = Auth.ad_profiles db).
Proof.
  split.
  - intros Hin. unfold AuthUI.doSignUp, Auth.signUp, Auth.auth_signUp.
    rewrite bool_decide_true by exact Hin. reflexivity.
  - intros other Hnew Hother Hid Hname Hu.
    unfold AuthUI.doSignUp, Auth.signUp, Auth.auth_signUp.
    rewrite bool_decide_false by exact Hnew.
    rewrite truthy_nonempty by exact Hu. unfold Auth.upsert_profile. cbn [pf_id pf_username].
    subst username.
    erewrite taken_by_other; [repeat split | exact Hother | exact Hid].
Qed.

Lemma filter_all_false {A} (P : A -> Prop) `{!forall x, Decision (P x)} (l : list A) :
  (forall x, x ∈ l -> ~ P x) -> filter P l = [].
Proof.
  induction l as [|a l IH]; intros Hall; [reflexivity|].
  rewrite filter_cons_False by (apply Hall; left).
  apply IH. intros x Hx. apply Hall. right. exact Hx.
Qed.

Lemma filter_username_insert (m : gmap string Profile) (k : string) (row : Profile)
    (name : string) :
  pf_username row = name -> (forall k' p, m !! k' = Some p -> pf_username p <> name) ->
  filter (fun p => pf_username p = name) (map snd (map_to_list (<[k := row]> m))) = [row].
Proof.
  intros Hrow Hfree. apply Permutation_singleton_r.
  rewrite <- insert_delete_eq.
  rewrite (map_to_list_insert (delete k m) k row) by apply lookup_delete_eq.
  simpl. rewrite filter_cons_True by exact Hrow.
  rewrite filter_all_false; [reflexivity|].
  intros p Hp. apply list_elem_of_In, in_map_iff in Hp as [[k' p'] [Hkp Hin]].
  simpl in Hkp. subst p'. apply list_elem_of_In, elem_of_map_to_list in Hin.
  apply lookup_delete_Some in Hin as [_ Hin]. exact (Hfree k' p Hin).
Qed.

Lemma find_after (f : Auth.Account -> bool) (l : list Auth.Account) (a : Auth.Account) :
  (forall x, In x l -> f x = false) -> f a = true -> find f (l ++ [a])%list = Some a.
Proof.
  induction l as [|b l IH]; intros H Ha; simpl; [rewrite Ha; reflexivity|].
  rewrite (H b (or_introl eq_refl)). apply IH; [|exact Ha].
  intros x Hx. apply H. right. exact Hx.
Qed.

(** A sign-up that passes the [LoginCard] checks, with an email not yet
    registered and a username no profile has, succeeds without a toast and
    creates the profile. Signing in then with that username and the
    password signs the new user in when the service confirmed the email at
    sign-up; otherwise it fails with the toast asking to confirm the email
    (the 'confirm' branch of [niceAuthError]), the state unchanged. The
    username must not look like an email: [signIn] would treat it as one. *)
Theorem signUp_form_then_signIn (identifier email password username bio fresh_id : string)
    (autoconfirm : bool) (db : Auth.AuthDB)
    (Hform : AuthUI.login_submit AuthUI.SignUpMode identifier email password username bio =
             AuthUI.CallSignUp email password username bio)
    (Hfresh : email ∉ map Auth.acc_email (Auth.ad_accounts db))
    (Hfree : forall k p, Auth.ad_profiles db !! k = Some p -> pf_username p <> username)
    (Hplain : Auth.email_shaped username = false)
    (Hnew : fresh_id ∉ Auth.ad_unconfirmed db) :
  exists db1,
    AuthUI.doSignUp fresh_id autoconfirm email password username bio db = (db1, None) /\
    Auth.ad_profiles db1 !! fresh_id = Some (mkProfile fresh_id username (Some bio) (Some email)) /\
    AuthUI.doSignIn username password db1 =
      (if autoconfirm
       then (Auth.set_session db1 (Some (mkUser fresh_id (Some email))), None)
       else (db1, Some "Check your email to confirm your account, then sign in.")).
Proof.
  unfold AuthUI.login_submit in Hform.
  destruct (Auth.email_shaped email) eqn:He; [|discriminate].
  destruct (JS.truthy password); [|discriminate].
  destruct (JS.truthy username) eqn:Hu; [|discriminate].
  assert (Hemail : JS.truthy email = true) by (destruct email; [discriminate | reflexivity]).
  unfold AuthUI.doSignUp, Auth.signUp, Auth.auth_signUp.
  rewrite bool_decide_false by exact Hfresh. rewrite Hu.
  unfold Auth.upsert_profile. cbn [pf_id pf_username user_id].
  rewrite username_free by (intros k p Hp _; exact (Hfree k p Hp)).
  rewrite bio_default.
  eexists. split; [reflexivity|]. split; [simpl; apply lookup_insert_eq|].
  unfold AuthUI.doSignIn, Auth.signIn. rewrite Hplain.
  unfold Auth.lookup_email. simpl Auth.ad_profiles.
  rewrite filter_username_insert by (exact eq_refl || exact Hfree).
  simpl. rewrite Hemail.
  unfold Auth.auth_signInWithPassword. simpl Auth.ad_accounts.
  rewrite find_after.
  - cbn [Auth.acc_id Auth.ad_unconfirmed Auth.set_profiles].
    destruct autoconfirm.
    + rewrite bool_decide_false by exact Hnew. reflexivity.
    + rewrite bool_decide_true
        by (apply list_elem_of_In, in_or_app; right; left; reflexivity).
      reflexivity.
  - intros x Hx. destruct (String.eqb_spec (Auth.acc_email x) email) as [E|]; [|reflexivity].
    exfalso. apply Hfresh. rewrite <- E. apply list_elem_of_In, in_map. exact Hx.
  - simpl. rewrite !String.eqb_refl. reflexivity.
Qed.

(** *** [createLocalLayer]: replies and sign-in *)

Lemma add_reply_to_other (commentId : string) (r c : Local.LComment) :
  lc_id c <> commentId -> Local.add_reply_to commentId r c = c.
Proof.
  destruct c as [i u t ts rs up down]. simpl. intros Hne.
  destruct (String.eqb_spec i commentId); [contradiction | reflexivity].
Qed.

Lemma with_comments_same (p : Local.LPost) : Local.with_comments p (Local.lp_comments p) = p.
Proof. destruct p. reflexivity. Qed.

(** The local [addReply] looks only at the top-level comments of the
    post: a reply to a reply (or to a missing comment or post) is dropped
    without an error and the state is left as it was. *)
Theorem local_addReply_top_level_only (st : Local.LocalState)
    (postId commentId content fresh : string) (now : Z)
    (Hnot : forall p, p ∈ Local.ls_posts st -> Local.lp_id p = postId ->
            commentId ∉ map lc_id (Local.lp_comments p)) :
  Local.step (Local.LAddReply postId commentId content fresh now) st = (st, None).
Proof.
  simpl. f_equal. destruct st as [cu ps prof]. unfold Local.set_posts. simpl in *. f_equal.
  unfold Local.map_post. rewrite <- (List.map_id ps) at 2. apply map_ext_in.
  intros p Hp. destruct (String.eqb_spec (Local.lp_id p) postId) as [E|]; [|reflexivity].
  specialize (Hnot p ltac:(apply list_elem_of_In; exact Hp) E).
  transitivity (Local.with_comments p (Local.lp_comments p)); [|apply with_comments_same].
  f_equal. rewrite <- (List.map_id (Local.lp_comments p)) at 2. apply map_ext_in.
  intros c Hc. apply add_reply_to_other. intros Hid. apply Hnot.
  rewrite <- Hid. apply list_elem_of_In, in_map. exact Hc.
Qed.

(** The local [signIn] checks no password and never fails: the user
    becomes [identifier] (or "user_local" for an empty one), with an email
    only when the identifier has an '@' after its first character. A
    profile is created for a new id; existing profiles and posts are kept. *)
Theorem local_signIn_any_identifier (identifier : string) (st : Local.LocalState) :
  let id := if JS.truthy identifier then identifier else "user_local" in
  let '(st', e) := Local.step (Local.LSignIn identifier) st in
  e = None /\ Local.ls_posts st' = Local.ls_posts st /\
  option_map user_id (Local.ls_currentUser st') = Some id /\
  (forall k p, Local.ls_profiles st !! k = Some p -> Local.ls_profiles st' !! k = Some p) /\
  is_Some (Local.ls_profiles st' !! id) /\
  (option_map user_email (Local.ls_currentUser st') = Some None <->
   match String.index 0 "@" identifier with Some k => k = 0%nat | None => True end).
Proof.
  simpl. split; [reflexivity|]. split; [reflexivity|]. split; [reflexivity|].
  split; [|split].
  - intros k p Hk. set (id := if JS.truthy identifier then identifier else "user_local").
    destruct (Local.ls_profiles st !! id) eqn:E; [exact Hk|].
    rewrite lookup_insert_ne; [exact Hk|]. intros Heq. rewrite Heq in E. congruence.
  - set (id := if JS.truthy identifier then identifier else "user_local").
    destruct (Local.ls_profiles st !! id) as [q|] eqn:E; [rewrite E; eauto|].
    rewrite lookup_insert_eq. eauto.
  - destruct identifier as [|c r]; cbn [JS.truthy].
    + split; [intros _; exact I | reflexivity].
    + destruct (String.index 0 "@" (String c r)) as [[|k]|]; simpl; split; intros;
        first [reflexivity | exact I | congruence].
Qed.

(** *** Witnesses of the properties above *)

Lemma timeAgo_future_witness :
  (0 < 1)%Z /\
  exists p : positive, ((0 - 1) / 1000)%Z = Z.neg p /\
    Feed.timeAgo 0 1 = Feed.AgoText ("-" ++ pretty p ++ "s").
Proof. split; [lia | apply (timeAgo_future 0 1); lia]. Defined.

Lemma addFiles_appends_witness :
  List.length [Examples.image_file] <= 9 /\
  exists extra,
    Files.addFiles (Some [Examples.text_file; Examples.image_file]) [Examples.image_file] =
    ([Examples.image_file] ++ extra)%list.
Proof.
  assert (H : List.length [Examples.image_file] <= 9) by (simpl; lia).
  split; [exact H|].
  destruct (addFiles_appends (Some [Examples.text_file; Examples.image_file])
              [Examples.image_file] H) as [extra [E _]].
  exists extra. exact E.
Defined.

Lemma toggleReactPost_frame_dedup_witness :
  Toggle.toggleReactPost "p1" Up Examples.toggle_db = Ok Examples.toggled /\
  NoDup (Toggle.up_set Examples.toggled "p1") /\ NoDup (Toggle.down_set Examples.toggled "p1").
Proof.
  assert (H : Toggle.toggleReactPost "p1" Up Examples.toggle_db = Ok Examples.toggled)
    by (vm_compute; reflexivity).
  split; [exact H|].
  apply (toggleReactPost_frame_dedup "p1" Up Examples.toggle_db Examples.toggled H).
  vm_compute. discriminate.
Defined.

Lemma addComment_read_back_witness :
  RemoteWrites.addComment "k1" 7 "p1" "[reply:c1]  hi" Examples.reply_backend =
    Ok (Examples.after_comment "[reply:c1]  hi") /\
  exists row,
    Remote.be_comments (Examples.after_comment "[reply:c1]  hi") =
      (Remote.be_comments Examples.reply_backend ++ [row])%list /\
    n_parentId (ListPosts.decode_row row) = Some "c1".
Proof.
  assert (H : RemoteWrites.addComment "k1" 7 "p1" "[reply:c1]  hi" Examples.reply_backend =
              Ok (Examples.after_comment "[reply:c1]  hi")) by (vm_compute; reflexivity).
  split; [exact H|].
  destruct (addComment_read_back "k1" 7 "p1" "[reply:c1]  hi" _ _ H)
    as [row (E & _ & _ & _ & _ & Hmark)].
  exists row. split; [exact E|].
  apply (Hmark "c1" "  hi"); [reflexivity | discriminate |].
  apply (bool_decide_unpack _). vm_compute. exact I.
Defined.

Lemma reply_box_read_back_witness :
  Feed.submitReply true true "  thanks! " = Some "thanks!" /\
  Remote.addReply "r1" 5 "p1" "c1" "thanks!" Examples.reply_backend =
    Ok (Examples.after_reply "thanks!") /\
  exists row,
    Remote.be_comments (Examples.after_reply "thanks!") =
      (Remote.be_comments Examples.reply_backend ++ [row])%list /\
    n_content (ListPosts.decode_row row) = Some (JS.trim "  thanks! ").
Proof.
  assert (Hf : Feed.submitReply true true "  thanks! " = Some "thanks!")
    by (vm_compute; reflexivity).
  assert (Ha : Remote.addReply "r1" 5 "p1" "c1" "thanks!" Examples.reply_backend =
               Ok (Examples.after_reply "thanks!")) by (vm_compute; reflexivity).
  split; [exact Hf|]. split; [exact Ha|].
  assert (Hb : "]"%char ∉ list_ascii_of_string "c1")
    by (apply (bool_decide_unpack _); vm_compute; exact I).
  destruct (reply_box_read_back "  thanks! " "thanks!" "r1" 5 "p1" "c1" _ _ Hf
              ltac:(discriminate) Hb Ha) as (_ & _ & row & E & _ & _ & Hc & _).
  exists row. split; [exact E | exact Hc].
Defined.

Lemma listPosts_comments_of_page_witness :
  ("c1", ListPosts.decode_row Examples.c1) ∈ Remote.lr_byId (Remote.listPosts Examples.reply_backend) /\
  "p1" ∈ map ListPosts.op_id (Remote.lr_posts (Remote.listPosts Examples.reply_backend)).
Proof.
  assert (E : Remote.lr_byId (Remote.listPosts Examples.reply_backend) =
              [("c1", ListPosts.decode_row Examples.c1)]) by (vm_compute; reflexivity).
  assert (H : ("c1", ListPosts.decode_row Examples.c1) ∈
              Remote.lr_byId (Remote.listPosts Examples.reply_backend))
    by (rewrite E; left).
  split; [exact H|].
  exact (proj1 (proj2 (listPosts_comments_of_page Examples.reply_backend _ H))).
Defined.

Lemma profile_cache_coherent_witness :
  (forall k p, Auth.rl_cache Examples.layer1 !! k = Some p ->
               Auth.ad_profiles Examples.auth_db !! k = Some p) /\
  (Auth.getProfile "u9" Examples.layer1 Examples.auth_db).1 =
    Auth.ad_profiles Examples.auth_db !! "u9".
Proof.
  assert (Hc : Auth.rl_cache Examples.layer1 = <["u9" := Examples.bob_profile]> ∅)
    by reflexivity.
  assert (H : forall k p, Auth.rl_cache Examples.layer1 !! k = Some p ->
                          Auth.ad_profiles Examples.auth_db !! k = Some p).
  { intros k p. rewrite Hc, lookup_insert_Some, lookup_empty.
    intros [[<- <-] | [_ Hn]]; [reflexivity | discriminate]. }
  split; [exact H|].
  exact (proj1 (proj1 (profile_cache_coherent Examples.layer1 Examples.auth_db H) "u9")).
Defined.

Lemma profile_editor_save_witness :
  Feed.profile_submit "  bobby " "hi" = inr ("bobby", "hi") /\
  Auth.ad_session Examples.bob_signed_in = Some (mkUser "u9" (Some "bob@example.com")) /\
  (forall k p, Auth.ad_profiles Examples.bob_signed_in !! k = Some p -> pf_id p <> "u9" ->
               pf_username p <> "bobby") /\
  "bobby" = JS.trim "  bobby ".
Proof.
  assert (Hs : Feed.profile_submit "  bobby " "hi" = inr ("bobby", "hi"))
    by (vm_compute; reflexivity).
  assert (Hu : Auth.ad_session Examples.bob_signed_in = Some (mkUser "u9" (Some "bob@example.com")))
    by reflexivity.
  assert (Hf : forall k p, Auth.ad_profiles Examples.bob_signed_in !! k = Some p ->
                           pf_id p <> "u9" -> pf_username p <> "bobby").
  { intros k p. simpl. rewrite lookup_singleton_Some.
    intros [_ <-] Hid. exfalso. apply Hid. reflexivity. }
  split; [exact Hs|]. split; [exact Hu|]. split; [exact Hf|].
  exact (proj1 (profile_editor_save "  bobby " "hi" "bobby" "hi" Examples.layer0
                  Examples.bob_signed_in _ Hs Hu Hf)).
Defined.

Lemma updateProfile_username_taken_witness :
  Auth.ad_session Examples.carol_db = Some (mkUser "u7" (Some "carol@example.com")) /\
  Auth.ad_profiles Examples.carol_db !! "u9" = Some Examples.bob_profile /\
  Auth.updateProfile "bob" None Examples.layer0 Examples.carol_db =
  (Examples.layer0, Examples.carol_db,
   Some (BackendError "duplicate key value violates unique constraint")).
Proof.
  assert (Hs : Auth.ad_session Examples.carol_db = Some (mkUser "u7" (Some "carol@example.com")))
    by reflexivity.
  assert (Ho : Auth.ad_profiles Examples.carol_db !! pf_id Examples.bob_profile =
               Some Examples.bob_profile) by (vm_compute; reflexivity).
  split; [exact Hs|]. split; [exact Ho|].
  exact (updateProfile_username_taken "bob" None Examples.layer0 Examples.carol_db _
           Examples.bob_profile Hs Ho eq_refl ltac:(discriminate)).
Defined.

Lemma signUp_form_then_signIn_witness :
  AuthUI.login_submit AuthUI.SignUpMode "" "eve@example.com" "pw" "eve" "" =
    AuthUI.CallSignUp "eve@example.com" "pw" "eve" "" /\
  ("eve@example.com" ∉ map Auth.acc_email (Auth.ad_accounts Examples.auth_db)) /\
  Auth.email_shaped "eve" = false /\
  exists db1,
    AuthUI.doSignUp "u10" false "eve@example.com" "pw" "eve" "" Examples.auth_db = (db1, None) /\
    AuthUI.doSignIn "eve" "pw" db1 =
      (db1, Some "Check your email to confirm your account, then sign in.").
Proof.
  assert (Hform : AuthUI.login_submit AuthUI.SignUpMode "" "eve@example.com" "pw" "eve" "" =
                  AuthUI.CallSignUp "eve@example.com" "pw" "eve" "") by (vm_compute; reflexivity).
  assert (Hfresh : "eve@example.com" ∉ map Auth.acc_email (Auth.ad_accounts Examples.auth_db))
    by (apply (bool_decide_unpack _); vm_compute; exact I).
  assert (Hplain : Auth.email_shaped "eve" = false) by (vm_compute; reflexivity).
  assert (Hfree : forall k p, Auth.ad_profiles Examples.auth_db !! k = Some p ->
                              pf_username p <> "eve").
  { intros k p. simpl. rewrite lookup_singleton_Some. intros [_ <-]. discriminate. }
  assert (Hnew : "u10" ∉ Auth.ad_unconfirmed Examples.auth_db) by (simpl; apply not_elem_of_nil).
  split; [exact Hform|]. split; [exact Hfresh|]. split; [exact Hplain|].
  destruct (signUp_form_then_signIn "" "eve@example.com" "pw" "eve" "" "u10" false
              Examples.auth_db Hform Hfresh Hfree Hplain Hnew) as [db1 (E1 & _ & E2)].
  exists db1. split; [exact E1 | exact E2].
Defined.

Lemma local_addReply_top_level_only_witness :
  (forall p, p ∈ Local.ls_posts Examples.threaded_local -> Local.lp_id p = "p1" ->
             "r1" ∉ map lc_id (Local.lp_comments p)) /\
  Local.step (Local.LAddReply "p1" "r1" "deeper" "r2" 4) Examples.threaded_local =
    (Examples.threaded_local, None).
Proof.
  assert (H : forall p, p ∈ Local.ls_posts Examples.threaded_local -> Local.lp_id p = "p1" ->
                        "r1" ∉ map lc_id (Local.lp_comments p)).
  { intros p Hp _. vm_compute in Hp. apply list_elem_of_singleton in Hp. subst p.
    apply (bool_decide_unpack _). vm_compute. exact I. }
  split; [exact H|].
  exact (local_addReply_top_level_only Examples.threaded_local "p1" "r1" "deeper" "r2" 4 H).
Defined.
